(** * PIX payment codec (pixCodec.js): a shallow embedding and its properties

    The codec serialises a tree of tag-length-value fields into the BR Code
    wire string, appends a CRC16, parses such strings back, builds the field
    tree of a merchant payment and classifies PIX keys.

    Conventions of the embedding.
    - A JavaScript string is a [string]: a sequence of code units.  The wire
      format is single-byte text, so code units are the 8-bit [ascii] values;
      [toUpperCase] and the [i] flag are those of 7-bit text.
    - A JavaScript number that only ever holds an integer or NaN (the scan
      position, the parsed field length) is a [number]; the amount, which is
      a genuine binary64 value, is a [double].
    - An object that is used through its property names is a [gmap] from
      property names to values; a field object, whose four properties are
      fixed, is a constructor [Field] with the projections of module [F].
    - [throw new Error(msg)] is the left injection [inl (Error msg)].
    - The scan loop of [decodeFields] does not terminate on every input, so
      it takes fuel and returns [None] when the fuel runs out. *)

From Stdlib Require Import ZArith NArith Lia List Ascii String Bool.
From stdpp Require Import gmap strings.

Import ListNotations.
Local Open Scope string_scope.
Local Open Scope list_scope.

(** ** The JavaScript runtime the codec relies on *)

Module JS.
Local Open Scope Z_scope.

(** *** Numbers that are integers or NaN *)

Inductive number : Type :=
| NaN : number
| Int : Z -> number.

(** [a + b] *)
Definition add (a b : number) : number :=
  match a, b with
  | Int x, Int y => Int (x + y)
  | _, _ => NaN
  end.

(** [a < b]: false as soon as one side is NaN *)
Definition lt (a b : number) : bool :=
  match a, b with
  | Int x, Int y => (x <? y)%Z
  | _, _ => false
  end.

(** ToIntegerOrInfinity *)
Definition toInteger (a : number) : Z :=
  match a with
  | NaN => 0
  | Int x => x
  end.

(** *** Strings *)

Definition len (s : string) : Z := Z.of_nat (String.length s).

Fixpoint take (n : nat) (s : string) : string :=
  match n, s with
  | S n', String c s' => String c (take n' s')
  | _, _ => ""
  end.

Fixpoint drop (n : nat) (s : string) : string :=
  match n, s with
  | S n', String _ s' => drop n' s'
  | _, _ => s
  end.

(** The substring of [s] from index [from] inclusive to [to] exclusive,
    for indices already clamped to the string. *)
Definition substring (s : string) (from to : Z) : string :=
  take (Z.to_nat (to - from)) (drop (Z.to_nat from) s).

(** [s.substr(start, length)] (ECMAScript B.2.2.1): a negative start counts
    from the end, the length is clamped to [0, size]. *)
Definition substr (s : string) (start length : number) : string :=
  let size := len s in
  let intStart := toInteger start in
  let intStart :=
    if (intStart <? 0)%Z then Z.max (size + intStart) 0
    else Z.min intStart size in
  let intLength := Z.min (Z.max (toInteger length) 0) size in
  let intEnd := Z.min (intStart + intLength) size in
  substring s intStart intEnd.

(** [s.slice(start, end)], [end] omitted when [None]. *)
Definition slice (s : string) (start : Z) (end_ : option Z) : string :=
  let size := len s in
  let clamp i :=
    if (i <? 0)%Z then Z.max (size + i) 0 else Z.min i size in
  let from := clamp start in
  let to := match end_ with None => size | Some e => clamp e end in
  substring s from (Z.max from to).

Fixpoint replicate (n : nat) (c : ascii) : string :=
  match n with
  | O => ""
  | S n' => String c (replicate n' c)
  end.

(** [s.padStart(targetLength, c)] for a one-character filler [c]. *)
Definition padStart (s : string) (targetLength : nat) (c : ascii) : string :=
  replicate (targetLength - String.length s) c +:+ s.

Definition charCode (c : ascii) : Z := Z.of_N (N_of_ascii c).

Definition in_range (lo hi c : ascii) : bool :=
  ((charCode lo <=? charCode c) && (charCode c <=? charCode hi))%Z.

Definition is_digit (c : ascii) : bool := in_range "0" "9" c.

(** WhiteSpace and LineTerminator code units below 256: TAB, LF, VT, FF, CR,
    SP and NBSP.  This is the set [\s] matches and [parseInt] and
    [parseFloat] skip. *)
Definition is_white (c : ascii) : bool :=
  let n := charCode c in
  ((9 <=? n) && (n <=? 13) || (n =? 32) || (n =? 160))%Z.

(** [s.toUpperCase()] on the code units [a]-[z]; the other 7-bit code units
    have no upper case and stay as they are. *)
Definition upper (c : ascii) : ascii :=
  if in_range "a" "z" c then ascii_of_N (N_of_ascii c - 32) else c.

Fixpoint toUpperCase (s : string) : string :=
  match s with
  | "" => ""
  | String c s' => String (upper c) (toUpperCase s')
  end.

(** *** Printing integers *)

Definition digit_char (d : N) : ascii :=
  if (d <? 10)%N then ascii_of_N (48 + d) else ascii_of_N (87 + d).

(** The digits of [n] in [radix], most significant first, in front of
    [acc]; [fuel] bounds the number of digits. *)
Fixpoint digits (fuel : nat) (radix n : N) (acc : string) : string :=
  match fuel with
  | O => acc
  | S fuel' =>
      let acc' := String (digit_char (n mod radix)) acc in
      if (n <? radix)%N then acc' else digits fuel' radix (n / radix) acc'
  end.

Definition N_toString (radix n : N) : string :=
  digits (S (N.to_nat (N.log2 n))) radix n "".

(** [z.toString(radix)] for an integer [z]. *)
Definition Z_toString (radix : N) (z : Z) : string :=
  if (z <? 0)%Z then "-" +:+ N_toString radix (Z.to_N (- z))
  else N_toString radix (Z.to_N z).

(** [x.toString()] *)
Definition toString (x : number) : string :=
  match x with
  | NaN => "NaN"
  | Int z => Z_toString 10 z
  end.

(** *** Loops

    [for (j = 0; j < n; j++) x = body(x)] *)
Fixpoint for_count {A} (n : nat) (body : A -> A) (x : A) : A :=
  match n with
  | O => x
  | S n' => for_count n' body (body x)
  end.

(** [for (i = 0; i < s.length; i++) x = body(x, s[i])] *)
Fixpoint for_chars {A} (body : A -> ascii -> A) (s : string) (x : A) : A :=
  match s with
  | "" => x
  | String c s' => for_chars body s' (body x c)
  end.

(** *** Bitwise operators

    [^], [&] and [<<] work on ToInt32 of their operands and return an
    int32. *)

Definition ToInt32 (z : Z) : Z :=
  Z.land (z + 0x80000000) 0xFFFFFFFF - 0x80000000.

Definition bxor (a b : Z) : Z := ToInt32 (Z.lxor (ToInt32 a) (ToInt32 b)).
Definition band (a b : Z) : Z := ToInt32 (Z.land (ToInt32 a) (ToInt32 b)).
Definition shl (a n : Z) : Z := ToInt32 (Z.shiftl (ToInt32 a) (n mod 32)).

(** *** parseInt *)

Fixpoint trimStart (s : string) : string :=
  match s with
  | String c s' => if is_white c then trimStart s' else s
  | "" => ""
  end.

Definition digit_value (c : ascii) : Z := charCode c - 48.

(** Reads the longest run of decimal digits in front of [s]: the number
    they spell after the digits already read into [acc], how many there
    are, and the rest of [s]. *)
Fixpoint read_digits (s : string) (acc : Z) (count : nat)
  : Z * nat * string :=
  match s with
  | String c s' =>
      if is_digit c then read_digits s' (10 * acc + digit_value c) (S count)
      else (acc, count, s)
  | "" => (acc, count, s)
  end.

(** Splits an optional sign off the front of [s]. *)
Definition read_sign (s : string) : bool * string :=
  match s with
  | String c s' =>
      if Ascii.eqb c "-" then (true, s')
      else if Ascii.eqb c "+" then (false, s')
      else (false, s)
  | "" => (false, s)
  end.

(** [parseInt(s, 10)].  The result is the exact integer; the codec only
    passes strings of at most two code units, far below the 2^53 where a
    binary64 would round. *)
Definition parseInt (s : string) : number :=
  let '(neg, s) := read_sign (trimStart s) in
  let '(v, count, _) := read_digits s 0 0 in
  match count with
  | O => NaN
  | _ => Int (if neg then - v else v)
  end.

(** *** binary64 values: parseFloat and toFixed *)

(** A Number as [parseFloat] returns it: NaN, an infinity, or the finite
    value [(-1)^neg * m * 2^e]. *)
Inductive double : Type :=
| DNaN : double
| DInf (neg : bool) : double
| DFin (neg : bool) (m : Z) (e : Z) : double.

(** [floor (log2 (p / q))] for positive [p] and [q]. *)
Definition floor_log2 (p q : Z) : Z :=
  let d := Z.log2 p - Z.log2 q in
  let below :=
    if 0 <=? d then p <? q * 2 ^ d else p * 2 ^ (- d) <? q in
  if below then d - 1 else d.

(** [num / den] rounded to the nearest integer, ties to even. *)
Definition round_half_even (num den : Z) : Z :=
  let q := num / den in
  let r := num mod den in
  if 2 * r <? den then q
  else if den <? 2 * r then q + 1
  else if Z.even q then q else q + 1.

(** The Number value for the rational [p / q] ([0 <= p], [0 < q]) with the
    given sign: round to nearest, ties to even, with 53 bits of precision,
    least exponent -1074, and infinity from 2^1024 on. *)
Definition binary64 (neg : bool) (p q : Z) : double :=
  if p =? 0 then DFin neg 0 0
  else
    let e := Z.max (floor_log2 p q - 52) (-1074) in
    let m :=
      if 0 <=? e then round_half_even p (q * 2 ^ e)
      else round_half_even (p * 2 ^ (- e)) q in
    if (971 <? e) || ((e =? 971) && (2 ^ 53 <=? m)) then DInf neg
    else DFin neg m e.

Fixpoint starts_with (p s : string) : bool :=
  match p, s with
  | "", _ => true
  | String a p', String b s' => Ascii.eqb a b && starts_with p' s'
  | _, _ => false
  end.

(** The exponent part in front of [s], 0 when there is no complete one. *)
Definition read_exponent (s : string) : Z :=
  match s with
  | String c s' =>
      if Ascii.eqb c "e" || Ascii.eqb c "E" then
        let '(neg, s'') := read_sign s' in
        let '(v, count, _) := read_digits s'' 0 0 in
        match count with
        | O => 0
        | _ => if neg then - v else v
        end
      else 0
  | "" => 0
  end.

(** [parseFloat(s)]: skip white space, take the longest prefix that is a
    StrDecimalLiteral, and round its value to binary64. *)
Definition parseFloat (s : string) : double :=
  let '(neg, s) := read_sign (trimStart s) in
  if starts_with "Infinity" s then DInf neg
  else
    let '(ip, icount, s1) := read_digits s 0 0 in
    let '(fp, fcount, s2) :=
      match s1 with
      | String c s1' =>
          if Ascii.eqb c "." then read_digits s1' ip 0 else (ip, O, s1)
      | "" => (ip, O, s1)
      end in
    match (icount + fcount)%nat with
    | O => DNaN
    | _ =>
        let ex := read_exponent s2 - Z.of_nat fcount in
        if 0 <=? ex then binary64 neg (fp * 10 ^ ex) 1
        else binary64 neg fp (10 ^ (- ex))
    end.

(** Number::toString for a finite integer value [x >= 10^21]: the least
    number [k] of digits [s] with [s * 10^(n-k)] rounding to [x], the
    closest such [s], printed as [d.ddde+(n-1)]. *)
Definition exp_candidates (x : Z) (m e : Z) (k : Z) : list (Z * Z) :=
  let nd := len (N_toString 10 (Z.to_N x)) in
  flat_map (fun n =>
    let scale := 10 ^ (n - k) in
    flat_map (fun s =>
      if (10 ^ (k - 1) <=? s) && (s <? 10 ^ k) then
        match binary64 false (s * scale) 1 with
        | DFin _ m' e' =>
            if (m' * 2 ^ e' =? x) then [(n, s)] else []
        | _ => []
        end
      else [])
      [x / scale; x / scale + 1])
    [nd; nd + 1].

Definition closest (x k : Z) (best c : Z * Z) : Z * Z :=
  let dist '(n, s) := Z.abs (s * 10 ^ (n - k) - x) in
  if dist c <? dist best then c
  else if (dist c =? dist best) && Z.even (snd c) then c
  else best.

Fixpoint shortest (fuel : nat) (x m e k : Z) : Z * Z * Z :=
  match fuel with
  | O => (k, 1, x)
  | S fuel' =>
      match exp_candidates x m e k with
      | c :: cs => let '(n, s) := fold_left (closest x k) cs c in (k, n, s)
      | [] => shortest fuel' x m e (k + 1)
      end
  end.

Definition toExponential (m e : Z) : string :=
  let x := m * 2 ^ e in
  let '(k, n, s) := shortest 17 x m e 1 in
  let ds := N_toString 10 (Z.to_N s) in
  let mant :=
    match ds with
    | String d "" => ds
    | String d rest => String d ("." +:+ rest)
    | "" => ds
    end in
  mant +:+ "e+" +:+ Z_toString 10 (n - 1).

(** [x.toFixed(2)] (Number.prototype.toFixed with fractionDigits 2). *)
Definition toFixed2 (x : double) : string :=
  match x with
  | DNaN => "NaN"
  | DInf neg => if neg then "-Infinity" else "Infinity"
  | DFin neg m e =>
      let s := if neg && (0 <? m) then "-" else "" in
      if (0 <=? e) && (10 ^ 21 <=? m * 2 ^ e) then s +:+ toExponential m e
      else
        (* the integer n with n / 100 closest to x, the larger on a tie *)
        let n :=
          if 0 <=? e then m * 2 ^ e * 100
          else (200 * m + 2 ^ (- e)) / 2 ^ (1 - e) in
        let ds := padStart (N_toString 10 (Z.to_N n)) 3 "0" in
        let k := String.length ds in
        s +:+ take (k - 2) ds +:+ "." +:+ drop (k - 2) ds
  end.

(** *** Regular expressions

    The patterns of the key classifier use character classes, literals,
    concatenation and bounded repetition, and are anchored with [^] and [$]
    (no [m] flag), so [pattern.test(s)] holds exactly when the whole of [s]
    is in the language of the pattern.  Membership is decided with
    derivatives. *)

Inductive regex : Type :=
| Empty : regex
| Eps : regex
| Class (p : ascii -> bool) : regex
| Seq (r1 r2 : regex) : regex
| Alt (r1 r2 : regex) : regex
| Star (r : regex) : regex.

Fixpoint nullable (r : regex) : bool :=
  match r with
  | Empty => false
  | Eps => true
  | Class _ => false
  | Seq r1 r2 => nullable r1 && nullable r2
  | Alt r1 r2 => nullable r1 || nullable r2
  | Star _ => true
  end.

Fixpoint deriv (c : ascii) (r : regex) : regex :=
  match r with
  | Empty => Empty
  | Eps => Empty
  | Class p => if p c then Eps else Empty
  | Seq r1 r2 =>
      if nullable r1 then Alt (Seq (deriv c r1) r2) (deriv c r2)
      else Seq (deriv c r1) r2
  | Alt r1 r2 => Alt (deriv c r1) (deriv c r2)
  | Star r1 => Seq (deriv c r1) (Star r1)
  end.

Fixpoint matches (r : regex) (s : string) : bool :=
  match s with
  | "" => nullable r
  | String c s' => matches (deriv c r) s'
  end.

(** [c] as a pattern character *)
Definition Chr (c : ascii) : regex := Class (Ascii.eqb c).
(** [r+] *)
Definition Plus (r : regex) : regex := Seq r (Star r).
(** [r{n}] *)
Fixpoint Repeat (n : nat) (r : regex) : regex :=
  match n with
  | O => Eps
  | S n' => Seq r (Repeat n' r)
  end.
(** [r{n,m}] with [m = n + extra] *)
Fixpoint RepeatUpTo (extra : nat) (r : regex) : regex :=
  match extra with
  | O => Eps
  | S extra' => Alt Eps (Seq r (RepeatUpTo extra' r))
  end.
Definition Range (n extra : nat) (r : regex) : regex :=
  Seq (Repeat n r) (RepeatUpTo extra r).

(** [\d], [\D], [\s] *)
Definition class_d : ascii -> bool := is_digit.
Definition class_D (c : ascii) : bool := negb (is_digit c).
Definition class_s : ascii -> bool := is_white.

Definition lower (c : ascii) : ascii :=
  if in_range "A" "Z" c then ascii_of_N (N_of_ascii c + 32) else c.

(** A class under the [i] flag: a code unit matches when it or its other
    case is in the class. *)
Definition ignoreCase (p : ascii -> bool) (c : ascii) : bool :=
  p c || p (lower c) || p (upper c).

(** [s.replace(/[p]/g, "")]: every code unit of the class is removed. *)
Fixpoint remove_all (p : ascii -> bool) (s : string) : string :=
  match s with
  | "" => ""
  | String c s' => if p c then remove_all p s' else String c (remove_all p s')
  end.

(** Truthiness of a string: only the empty string is falsy. *)
Definition truthy (s : string) : bool := negb (String.eqb s "").

(** Truthiness of a property that may be undefined. *)
Definition provided (o : option string) : bool :=
  match o with
  | Some s => truthy s
  | None => false
  end.

(** [l.join("")] *)
Definition join (l : list string) : string := fold_right String.append "" l.

(** [l.splice(start, 0, item)]: insert [item] at [start], counted from the
    end when negative. *)
Definition splice_insert {A} (l : list A) (start : Z) (item : A) : list A :=
  let size := Z.of_nat (List.length l) in
  let k := if start <? 0 then Z.max (size + start) 0 else Z.min start size in
  firstn (Z.to_nat k) l ++ item :: skipn (Z.to_nat k) l.

(** [new Error(message)] *)
Inductive error : Type := Error (message : string).

End JS.

(** ** calculateCRC16 *)

(** The body of the inner loop. *)
Definition crc_bit (crc : Z) : Z :=
  let crc :=
    if negb (JS.band crc 0x8000 =? 0)%Z
    then JS.bxor (JS.shl crc 1) 0x1021
    else JS.shl crc 1 in
  JS.band crc 0xffff.

(** The body of the outer loop, for the code unit [c = data.charCodeAt(i)]. *)
Definition crc_unit (crc : Z) (c : ascii) : Z :=
  let crc := JS.bxor crc (JS.shl (JS.charCode c) 8) in
  JS.for_count 8 crc_bit crc.

Definition calculateCRC16 (data : string) : string :=
  let crc := JS.for_chars crc_unit data 0xffff%Z in
  JS.padStart (JS.toUpperCase (JS.Z_toString 16 crc)) 4 "0".


(** ** formatLength *)

Definition formatLength (value : JS.number) (length : nat) : string :=
  JS.padStart (JS.toString value) length "0".

(** ** Fields *)

(** A field object [{id, description, length, value}]; [value] is a string
    or an array of fields, [description] may be absent. *)
Inductive field : Type :=
| Field (id : string) (description : option string) (length : string)
        (value : fvalue)
with fvalue : Type :=
| Str (s : string)
| Arr (fields : list field).

Module F.

Definition id (f : field) : string :=
  match f with Field i _ _ _ => i end.

Definition description (f : field) : option string :=
  match f with Field _ d _ _ => d end.

Definition length (f : field) : string :=
  match f with Field _ _ l _ => l end.

Definition value (f : field) : fvalue :=
  match f with Field _ _ _ v => v end.

End F.

(** ** encodeField *)

Fixpoint encodeField (id : string) (value : fvalue) {struct value} : string :=
  match value with
  | Arr subFields =>
      (* Handle nested fields *)
      let nestedData :=
        fold_left (fun nestedData subField =>
          if JS.truthy (F.id subField) then
            let subValue :=
              match F.value subField with
              | Arr vs =>
                  JS.join (map (fun v => encodeField (F.id v) (F.value v)) vs)
              | Str s => s
              end in
            let subLength := formatLength (JS.Int (JS.len subValue)) 2 in
            nestedData +:+ F.id subField +:+ subLength +:+ subValue
          else nestedData) subFields "" in
      let length := formatLength (JS.Int (JS.len nestedData)) 2 in
      id +:+ length +:+ nestedData
  | Str value =>
      let length := formatLength (JS.Int (JS.len value)) 2 in
      id +:+ length +:+ value
  end.

(** ** decodeFields *)

(** [["26", "62"].includes(id)] *)
Definition includes (l : list string) (x : string) : bool :=
  existsb (String.eqb x) l.

(** One turn of the [while] loop at [position]: the field it pushes and
    the position it moves to.  [rec] is the recursive call
    [decodeFields(value)]. *)
Definition scan_body (rec : string -> option (list field))
    (pixString : string) (position : JS.number)
  : option (field * JS.number) :=
  let id := JS.substr pixString position (JS.Int 2) in
  let length :=
    JS.parseInt
      (JS.substr pixString (JS.add position (JS.Int 2)) (JS.Int 2)) in
  let value := JS.substr pixString (JS.add position (JS.Int 4)) length in
  let length_ := JS.padStart (JS.toString length) 2 "0" in
  (* Check if this field contains nested data *)
  let pushed :=
    if includes ["26"; "62"] id then
      match rec value with
      | Some nested => Some (Field id None length_ (Arr nested))
      | None => None
      end
    else Some (Field id None length_ (Str value)) in
  match pushed with
  | Some f => Some (f, JS.add position (JS.add (JS.Int 4) length))
  | None => None
  end.

(** The [while (position < pixString.length - 4)] loop, from the state
    [(position, fields)] to the state in which it exits; [gas] bounds the
    number of turns. *)
Fixpoint scan (gas : nat) (rec : string -> option (list field))
    (pixString : string) (position : JS.number) (fields : list field)
  : option (JS.number * list field) :=
  match gas with
  | O => None
  | S gas' =>
      if JS.lt position (JS.Int (JS.len pixString - 4)) then
        match scan_body rec pixString position with
        | Some (f, position') =>
            scan gas' rec pixString position' (fields ++ [f])
        | None => None
        end
      else Some (position, fields)
  end.

(** The CRC field pushed after the loop. *)
Definition crc_field (pixString : string) (position : JS.number) : field :=
  Field "63" None "04"
    (Str (JS.substr pixString (JS.add position (JS.Int 4)) (JS.Int 4))).

Fixpoint decodeFields (fuel : nat) (pixString : string)
  : option (list field) :=
  match fuel with
  | O => None
  | S fuel' =>
      match scan fuel' (decodeFields fuel') pixString (JS.Int 0) [] with
      | Some (position, fields) =>
          (* Add CRC field *)
          if JS.lt position (JS.Int (JS.len pixString))
          then Some (fields ++ [crc_field pixString position])
          else Some fields
      | None => None
      end
  end.

(** ** PixCodec *)

Module PixCodec.

(** The object [{ value: fields }]. *)
Definition pixData (fields : list field) : gmap string (list field) :=
  {[ "value" := fields ]}.

(** *** encode *)

Definition encode (pixData : gmap string (list field)) : JS.error + string :=
  match pixData !! "value" with
  | None =>
      inl (JS.Error
             "Invalid PIX data format. Expected object with value array.")
  | Some value =>
      (* Process all fields except CRC (63) *)
      let fieldsWithoutCRC :=
        List.filter (fun field => negb (String.eqb (F.id field) "63")) value in
      let pixString :=
        fold_left (fun pixString field =>
          if JS.truthy (F.id field)
          then pixString +:+ encodeField (F.id field) (F.value field)
          else pixString) fieldsWithoutCRC "" in
      (* Add CRC field ID and length *)
      let pixString := pixString +:+ "6304" in
      (* Calculate and append CRC *)
      let crc := calculateCRC16 pixString in
      inr (pixString +:+ crc)
  end.

(** *** decode *)

(** The object [descriptionsMap]; its numeric keys are the strings "26",
    "52", ...  It is only read at field ids, which [substr(position, 2)]
    makes at most two characters long, so no inherited property of
    [Object.prototype] is ever found in it. *)
Definition descriptionsMap : gmap string string :=
  list_to_map
    [ ("00", "Payload Format Indicator");
      ("26", "Merchant Account Information");
      ("52", "Merchant Category Code (MCC)");
      ("53", "Transaction Currency");
      ("54", "Transaction Amount");
      ("58", "Country Code");
      ("59", "Merchant Name");
      ("60", "Merchant City");
      ("62", "Additional Data Field Template");
      ("63", "CRC16 - result's 4 nibbles") ].

(** [field.description = d] *)
Definition set_description (d : string) (f : field) : field :=
  Field (F.id f) (Some d) (F.length f) (F.value f).

(** [if (subField.id === id) subField.description = d] *)
Definition describe_if (id d : string) (subField : field) : field :=
  if String.eqb (F.id subField) id then set_description d subField
  else subField.

(** The body of [field.value.forEach] for a field with id [parent]. *)
Definition describe_sub (parent : string) (subField : field) : field :=
  if String.eqb parent "26" then
    describe_if "01" "Key" (describe_if "00" "GUI" subField)
  else if String.eqb parent "62" then
    describe_if "50" "Payment system specific template"
      (describe_if "05" "Transaction ID" subField)
  else subField.

(** The body of [fields.forEach]. *)
Definition describe (f : field) : field :=
  let f :=
    match descriptionsMap !! F.id f with
    | Some d => if JS.truthy d then set_description d f else f
    | None => f
    end in
  (* Add descriptions for nested fields *)
  match F.value f with
  | Arr subFields =>
      Field (F.id f) (F.description f) (F.length f)
        (Arr (map (describe_sub (F.id f)) subFields))
  | Str _ => f
  end.

Definition decode (fuel : nat) (pixString : string)
  : option (JS.error + gmap string (list field)) :=
  if negb (JS.truthy pixString) then
    Some (inl (JS.Error "Invalid PIX string. Expected non-empty string."))
  else
    (* Validate CRC *)
    let dataWithoutCRC := JS.slice pixString 0 (Some (-4)%Z) in
    let providedCRC := JS.slice pixString (-4) None in
    let calculatedCRC := calculateCRC16 dataWithoutCRC in
    if negb (String.eqb providedCRC calculatedCRC) then
      Some (inl (JS.Error ("Invalid CRC. Expected: " +:+ calculatedCRC
                           +:+ ", Got: " +:+ providedCRC)))
    else
      match decodeFields fuel pixString with
      | Some fields => Some (inr (pixData (map describe fields)))
      | None => None
      end.

(** *** createPayment *)

Record params : Type := Params {
  key : option string;
  merchantName : option string;
  merchantCity : option string;
  amount : option string;
  transactionId : option string;
  description : option string
}.

Definition createPayment (p : params)
  : JS.error + gmap string (list field) :=
  match key p, merchantName p, merchantCity p with
  | Some key, Some merchantName, Some merchantCity =>
      if negb (JS.truthy key) || negb (JS.truthy merchantName)
         || negb (JS.truthy merchantCity)
      then inl (JS.Error "Missing required parameters: key, merchantName, and merchantCity are required")
      else
        let value :=
          [ Field "00" (Some "Payload Format Indicator") "02" (Str "01");
            Field "26" (Some "Merchant Account Information") "variable"
              (Arr [ Field "00" (Some "GUI") "14" (Str "BR.GOV.BCB.PIX");
                     Field "01" (Some "Key") "variable" (Str key) ]);
            Field "52" (Some "Merchant Category Code (MCC)") "04"
              (Str "0000");
            Field "53" (Some "Transaction Currency") "03" (Str "986");
            Field "58" (Some "Country Code") "02" (Str "BR");
            Field "59" (Some "Merchant Name") "variable"
              (Str (JS.toUpperCase merchantName));
            Field "60" (Some "Merchant City") "variable"
              (Str (JS.toUpperCase merchantCity)) ] in
        (* Add amount if provided *)
        let value :=
          match amount p with
          | Some amount =>
              if JS.truthy amount then
                JS.splice_insert value (-3)
                  (Field "54" (Some "Transaction Amount") "variable"
                     (Str (JS.toFixed2 (JS.parseFloat amount))))
              else value
          | None => value
          end in
        (* Add additional data if provided *)
        let value :=
          if JS.provided (transactionId p) || JS.provided (description p)
          then
            let additional : list field := [] in
            let additional :=
              match transactionId p with
              | Some transactionId =>
                  if JS.truthy transactionId then
                    additional ++
                    [Field "05" (Some "Transaction ID") "variable"
                       (Str transactionId)]
                  else additional
              | None => additional
              end in
            let additional :=
              match description p with
              | Some description =>
                  if JS.truthy description then
                    additional ++
                    [Field "02" (Some "Description") "variable"
                       (Str description)]
                  else additional
              | None => additional
              end in
            (* Add BR Code specific template *)
            let additional :=
              additional ++
              [Field "50" (Some "Payment system specific template")
                 "variable"
                 (Arr [ Field "00" (Some "GUI") "17"
                          (Str "BR.GOV.BCB.BRCODE");
                        Field "01" (Some "version") "05" (Str "1.0.0") ])] in
            value ++
            [Field "62" (Some "Additional Data Field Template") "variable"
               (Arr additional)]
          else value in
        inr (pixData value)
  | _, _, _ =>
      inl (JS.Error "Missing required parameters: key, merchantName, and merchantCity are required")
  end.

(** *** validateKey *)

Record validation : Type := Validation {
  isValid : bool;
  type : option string;
  error : option string
}.

(** [/^\d{11}$/] *)
Definition re_cpf : JS.regex := JS.Repeat 11 (JS.Class JS.class_d).
(** [/^\d{14}$/] *)
Definition re_cnpj : JS.regex := JS.Repeat 14 (JS.Class JS.class_d).
(** [[^\s@]] *)
Definition class_email (c : ascii) : bool :=
  negb (JS.class_s c || Ascii.eqb c "@").
(** [/^[^\s@]+@[^\s@]+\.[^\s@]+$/] *)
Definition re_email : JS.regex :=
  JS.Seq (JS.Plus (JS.Class class_email))
    (JS.Seq (JS.Chr "@")
       (JS.Seq (JS.Plus (JS.Class class_email))
          (JS.Seq (JS.Chr ".") (JS.Plus (JS.Class class_email))))).
(** [/^\+55\d{10,11}$/] *)
Definition re_phone : JS.regex :=
  JS.Seq (JS.Chr "+")
    (JS.Seq (JS.Chr "5")
       (JS.Seq (JS.Chr "5") (JS.Range 10 1 (JS.Class JS.class_d)))).
(** [[0-9a-f]] under the [i] flag *)
Definition class_hex : ascii -> bool :=
  JS.ignoreCase (fun c => JS.in_range "0" "9" c || JS.in_range "a" "f" c).
Definition dash : JS.regex := JS.Class (JS.ignoreCase (Ascii.eqb "-")).
(** [/^[0-9a-f]{8}-[0-9a-f]{4}-[0-9a-f]{4}-[0-9a-f]{4}-[0-9a-f]{12}$/i] *)
Definition re_uuid : JS.regex :=
  JS.Seq (JS.Repeat 8 (JS.Class class_hex))
    (JS.Seq dash
       (JS.Seq (JS.Repeat 4 (JS.Class class_hex))
          (JS.Seq dash
             (JS.Seq (JS.Repeat 4 (JS.Class class_hex))
                (JS.Seq dash
                   (JS.Seq (JS.Repeat 4 (JS.Class class_hex))
                      (JS.Seq dash (JS.Repeat 12 (JS.Class class_hex))))))))).

Definition validateKey (key : string) : validation :=
  if negb (JS.truthy key) then
    Validation false None (Some "Key must be a non-empty string")
  else
    (* Remove non-digits for CPF/CNPJ validation *)
    let cleanKey := JS.remove_all JS.class_D key in
    (* CPF validation (11 digits) *)
    if JS.matches re_cpf cleanKey then Validation true (Some "CPF") None
    (* CNPJ validation (14 digits) *)
    else if JS.matches re_cnpj cleanKey then
      Validation true (Some "CNPJ") None
    (* Email validation *)
    else if JS.matches re_email key then Validation true (Some "EMAIL") None
    (* Phone validation (Brazilian format) *)
    else if JS.matches re_phone key then Validation true (Some "PHONE") None
    (* Random key validation (UUID format) *)
    else if JS.matches re_uuid key then Validation true (Some "RANDOM") None
    else Validation false None (Some "Invalid PIX key format").

End PixCodec.


(** Every code unit of [s] is in the class [p]. *)
Fixpoint all_chars (p : ascii -> bool) (s : string) : bool :=
  match s with
  | "" => true
  | String c s' => p c && all_chars p s'
  end.

(** ** The checksum as the specification words it *)

Module CRCSpec.
Local Open Scope Z_scope.

Definition polynomial : Z := 0x1021.
Definition initial : Z := 0xFFFF.

(** One bit: if the top bit of the 16-bit register is set, shift left and
    XOR with the polynomial, else shift left; then mask to 16 bits. *)
Definition step_bit (reg : Z) : Z :=
  (if Z.testbit reg 15 then Z.lxor (2 * reg) polynomial else 2 * reg)
    mod 2 ^ 16.

Fixpoint iterate (n : nat) (f : Z -> Z) (x : Z) : Z :=
  match n with
  | O => x
  | S n' => iterate n' f (f x)
  end.

(** One code unit: XOR it into the high byte, then eight bit steps. *)
Definition step_unit (reg unit : Z) : Z :=
  iterate 8 step_bit (Z.lxor reg (unit * 2 ^ 8)).

Definition register (s : string) : Z :=
  fold_left step_unit (map JS.charCode (list_ascii_of_string s)) initial.

Definition hex_digit (d : Z) : ascii :=
  match d with
  | 0 => "0" | 1 => "1" | 2 => "2" | 3 => "3" | 4 => "4" | 5 => "5"
  | 6 => "6" | 7 => "7" | 8 => "8" | 9 => "9" | 10 => "A" | 11 => "B"
  | 12 => "C" | 13 => "D" | 14 => "E" | _ => "F"
  end%char.

(** Four hexadecimal digits, upper case, zero-padded on the left. *)
Definition hex4 (v : Z) : string :=
  String (hex_digit (v / 16 ^ 3 mod 16))
    (String (hex_digit (v / 16 ^ 2 mod 16))
       (String (hex_digit (v / 16 mod 16))
          (String (hex_digit (v mod 16)) ""))).

Definition checksum (s : string) : string := hex4 (register s).

Definition is_upper_hex (c : ascii) : bool :=
  JS.in_range "0" "9" c || JS.in_range "A" "F" c.

End CRCSpec.

(** ** The error kinds of the specification *)

Section ErrorKinds.
Import PixCodec.

(** InvalidInput: a missing or malformed argument. *)
Definition InvalidInput (e : JS.error) : Prop :=
  e = JS.Error "Invalid PIX string. Expected non-empty string."
  \/ e = JS.Error "Invalid PIX data format. Expected object with value array."
  \/ e = JS.Error "Missing required parameters: key, merchantName, and merchantCity are required".

(** ChecksumMismatch, carrying the computed and the provided CRC. *)
Definition ChecksumMismatch (computed provided : string) : JS.error :=
  JS.Error ("Invalid CRC. Expected: " +:+ computed +:+ ", Got: " +:+ provided).

(** The last four characters of the input, and the CRC16 of all that
    precedes them. *)
Definition providedCRC (s : string) : string := JS.slice s (-4) None.
Definition computedCRC (s : string) : string :=
  calculateCRC16 (JS.slice s 0 (Some (-4)%Z)).

(** The checksum sentence of the specification, at the input [s]. *)
Definition mismatch_is_reported (s : string) : Prop :=
  providedCRC s <> computedCRC s ->
  forall fuel,
    decode fuel s
    = Some (inl (ChecksumMismatch (computedCRC s) (providedCRC s))).

End ErrorKinds.

(** ** The example of the test suite *)

Definition FINAL_KEY : string :=
  "00020126360014BR.GOV.BCB.PIX0114234842250001665204000053039865406123.455802BR5907WISEFOX6014BELO HORIZONTE62450507ref123450300017BR.GOV.BCB.BRCODE01051.0.063040D3F".

Definition example_params : PixCodec.params :=
  PixCodec.Params (Some "23484225000166") (Some "WISEFOX")
    (Some "BELO HORIZONTE") (Some "123.45") (Some "ref1234") None.

(** [fields.find((field) => field.id === id)] *)
Definition find_id (id : string) (fields : list field) : option field :=
  List.find (fun field => String.eqb (F.id field) id) fields.

(** What [decode] returns on [FINAL_KEY]. *)
Definition FINAL_KEY_fields : list field :=
  [ Field "00" (Some "Payload Format Indicator") "02" (Str "01");
    Field "26" (Some "Merchant Account Information") "36"
      (Arr [ Field "00" (Some "GUI") "14" (Str "BR.GOV.BCB.PIX");
             Field "01" (Some "Key") "14" (Str "23484225000166") ]);
    Field "52" (Some "Merchant Category Code (MCC)") "04" (Str "0000");
    Field "53" (Some "Transaction Currency") "03" (Str "986");
    Field "54" (Some "Transaction Amount") "06" (Str "123.45");
    Field "58" (Some "Country Code") "02" (Str "BR");
    Field "59" (Some "Merchant Name") "07" (Str "WISEFOX");
    Field "60" (Some "Merchant City") "14" (Str "BELO HORIZONTE");
    Field "62" (Some "Additional Data Field Template") "45"
      (Arr [ Field "05" (Some "Transaction ID") "07" (Str "ref1234");
             Field "50" (Some "Payment system specific template") "30"
               (Str "0017BR.GOV.BCB.BRCODE01051.0.0") ]);
    Field "63" (Some "CRC16 - result's 4 nibbles") "04" (Str "0D3F") ].

(** ** The description pass as the specification words it *)

(** The fixed lookup table of the top-level labels. *)
Definition top_label (id : string) : option string :=
  if String.eqb id "00" then Some "Payload Format Indicator"
  else if String.eqb id "26" then Some "Merchant Account Information"
  else if String.eqb id "52" then Some "Merchant Category Code (MCC)"
  else if String.eqb id "53" then Some "Transaction Currency"
  else if String.eqb id "54" then Some "Transaction Amount"
  else if String.eqb id "58" then Some "Country Code"
  else if String.eqb id "59" then Some "Merchant Name"
  else if String.eqb id "60" then Some "Merchant City"
  else if String.eqb id "62" then Some "Additional Data Field Template"
  else if String.eqb id "63" then Some "CRC16 - result's 4 nibbles"
  else None.

(** The labels of the known subfields of the fields 26 and 62. *)
Definition sub_label (parent id : string) : option string :=
  if String.eqb parent "26" then
    if String.eqb id "00" then Some "GUI"
    else if String.eqb id "01" then Some "Key"
    else None
  else if String.eqb parent "62" then
    if String.eqb id "05" then Some "Transaction ID"
    else if String.eqb id "50" then Some "Payment system specific template"
    else None
  else None.

(** A scanned field with its label and the labels of its subfields; ids,
    lengths and values are untouched. *)
Definition labelled (f : field) : field :=
  Field (F.id f) (top_label (F.id f)) (F.length f)
    match F.value f with
    | Arr subFields =>
        Arr (map (fun sf =>
                    Field (F.id sf) (sub_label (F.id f) (F.id sf))
                      (F.length sf) (F.value sf)) subFields)
    | Str v => Str v
    end.

(** The shape the specification gives to the result of [decode]. *)
Definition has_shape_fields (obj : gmap string (list field)) : Prop :=
  exists l, obj = {[ "fields" := l ]}.

(** No description on a scanned field nor on its subfields. *)
Definition undescribed (f : field) : Prop :=
  F.description f = None
  /\ match F.value f with
     | Arr subFields => Forall (fun sf => F.description sf = None) subFields
     | Str _ => True
     end.

(** ** The scan as the specification words it *)

(** At the exit of the scan of [s] fewer than four characters remain, and if
    any remain the terminal field holds the last four characters of [s]. *)
Definition scan_stops_before_crc (s : string) : Prop :=
  forall gas rec position fields,
    scan gas rec s (JS.Int 0) [] = Some (JS.Int position, fields) ->
    (JS.len s - position < 4)%Z
    /\ ((position < JS.len s)%Z ->
        crc_field s (JS.Int position)
        = Field "63" None "04" (Str (JS.slice s (-4) None))).

(** [rec'] returns whatever [rec] returns. *)
Definition extends (rec rec' : string -> option (list field)) : Prop :=
  forall s r, rec s = Some r -> rec' s = Some r.

(** ** The wire format *)

(** One tuple on the wire: id, two-digit length, value. *)
Definition tlv (id v : string) : string :=
  id +:+ formatLength (JS.Int (JS.len v)) 2 +:+ v.

(** A sequence of tuples [(id, value)] on the wire. *)
Definition wire (items : list (string * string)) : string :=
  JS.join (map (fun it => tlv (fst it) (snd it)) items).

(** The field the scan pushes for the tuple [(id, v)]. *)
Definition scanned (rec : string -> option (list field)) (id v : string)
  : option field :=
  let length_ := formatLength (JS.Int (JS.len v)) 2 in
  if includes ["26"; "62"] id then
    match rec v with
    | Some nested => Some (Field id None length_ (Arr nested))
    | None => None
    end
  else Some (Field id None length_ (Str v)).

(** The tuple [it] has a two-character id and a value of at most 99
    characters, and the scan pushes [f] for it. *)
Definition item_ok (rec : string -> option (list field))
    (it : string * string) (f : field) : Prop :=
  String.length (fst it) = 2%nat
  /\ (JS.len (snd it) <= 99)%Z
  /\ scanned rec (fst it) (snd it) = Some f.

(** Every tuple of [items] is followed by at least one character or has a
    value that is not empty: the scan loop does not stop in front of it. *)
Fixpoint can_scan (items : list (string * string)) (rest : string) : Prop :=
  match items with
  | [] => True
  | it :: items' =>
      (snd it <> "" \/ wire items' +:+ rest <> "") /\ can_scan items' rest
  end.

(** ** Checking a predicate on every integer of [k] bits *)

Fixpoint all_bits (k : nat) (P : Z -> bool) : bool :=
  match k with
  | O => P 0%Z
  | S k' =>
      all_bits k' (fun z => P (2 * z)%Z)
      && all_bits k' (fun z => P (2 * z + 1)%Z)
  end.

(** ** The language of a regular expression *)

Inductive lang : JS.regex -> string -> Prop :=
| lang_eps : lang JS.Eps ""
| lang_class p c : p c = true -> lang (JS.Class p) (String c "")
| lang_seq r1 r2 s1 s2 :
    lang r1 s1 -> lang r2 s2 -> lang (JS.Seq r1 r2) (s1 +:+ s2)
| lang_alt_l r1 r2 s : lang r1 s -> lang (JS.Alt r1 r2) s
| lang_alt_r r1 r2 s : lang r2 s -> lang (JS.Alt r1 r2) s
| lang_star_nil r : lang (JS.Star r) ""
| lang_star_cons r s1 s2 :
    lang r s1 -> lang (JS.Star r) s2 -> lang (JS.Star r) (s1 +:+ s2).

(** ** The key classes as the specification words them *)

(** The key with all non-digit characters stripped. *)
Fixpoint keep_digits (s : string) : string :=
  match s with
  | "" => ""
  | String c s' =>
      if JS.is_digit c then String c (keep_digits s') else keep_digits s'
  end.

Definition all_digits (s : string) : Prop :=
  all_chars JS.is_digit s = true.

(** Neither white space nor "@". *)
Definition plain (s : string) : Prop :=
  all_chars
    (fun c => negb (JS.is_white c) && negb (Ascii.eqb c "@")) s = true.

(** [local@domain.tld]: one "@", no white space, a dot inside what follows
    the "@". *)
Definition email_shape (key : string) : Prop :=
  exists l d t,
    key = l +:+ "@" +:+ d +:+ "." +:+ t
    /\ l <> "" /\ d <> "" /\ t <> ""
    /\ plain l /\ plain d /\ plain t.

(** "+55" followed by 10 or 11 digits. *)
Definition phone_shape (key : string) : Prop :=
  exists ds,
    key = "+55" +:+ ds /\ all_digits ds
    /\ (String.length ds = 10%nat \/ String.length ds = 11%nat).

Definition is_hex (c : ascii) : bool :=
  JS.in_range "0" "9" c || JS.in_range "a" "f" c || JS.in_range "A" "F" c.

Definition hex_group (n : nat) (s : string) : Prop :=
  String.length s = n /\ all_chars is_hex s = true.

(** Five groups of 8, 4, 4, 4 and 12 hexadecimal digits of either case,
    separated by dashes. *)
Definition uuid_shape (key : string) : Prop :=
  exists a b c d e,
    key = a +:+ "-" +:+ b +:+ "-" +:+ c +:+ "-" +:+ d +:+ "-" +:+ e
    /\ hex_group 8 a /\ hex_group 4 b /\ hex_group 4 c /\ hex_group 4 d
    /\ hex_group 12 e.

(** The classification in its fixed order: the class of a key, or [None]
    for a key of no class. *)
Inductive key_class (key : string) : option string -> Prop :=
| key_cpf :
    String.length (keep_digits key) = 11%nat -> key_class key (Some "CPF")
| key_cnpj :
    String.length (keep_digits key) = 14%nat -> key_class key (Some "CNPJ")
| key_email :
    String.length (keep_digits key) <> 11%nat ->
    String.length (keep_digits key) <> 14%nat ->
    email_shape key -> key_class key (Some "EMAIL")
| key_phone :
    String.length (keep_digits key) <> 11%nat ->
    String.length (keep_digits key) <> 14%nat ->
    ~ email_shape key -> phone_shape key -> key_class key (Some "PHONE")
| key_random :
    String.length (keep_digits key) <> 11%nat ->
    String.length (keep_digits key) <> 14%nat ->
    ~ email_shape key -> ~ phone_shape key -> uuid_shape key ->
    key_class key (Some "RANDOM")
| key_invalid :
    String.length (keep_digits key) <> 11%nat ->
    String.length (keep_digits key) <> 14%nat ->
    ~ email_shape key -> ~ phone_shape key -> ~ uuid_shape key ->
    key_class key None.

(** What [validateKey] answers for a key of the class [t]. *)
Definition answers (key : string) (t : option string) : Prop :=
  match t with
  | Some ty =>
      PixCodec.validateKey key = PixCodec.Validation true (Some ty) None
  | None =>
      PixCodec.isValid (PixCodec.validateKey key) = false
      /\ PixCodec.type (PixCodec.validateKey key) = None
      /\ exists msg, PixCodec.error (PixCodec.validateKey key) = Some msg
  end.

(** Checking a predicate on every code unit. *)
Definition all_ascii (P : ascii -> bool) : bool :=
  all_bits 8 (fun z => P (ascii_of_N (Z.to_N z))).

(** ** The amount field as the specification words it *)

(** A fixed two-decimal-place numeric string: an optional minus sign,
    digits, a dot and two digits. *)
Definition is_fixed2 (v : string) : Prop :=
  exists sign int frac,
    v = sign +:+ int +:+ "." +:+ frac
    /\ (sign = "" \/ sign = "-")
    /\ int <> "" /\ all_digits int
    /\ String.length frac = 2%nat /\ all_digits frac.

(** The amount sentence of the specification, at the parameters [p]: the
    document starts
    with the eight ids in this order, and the fifth field holds the amount
    as a two-decimal string. *)
Definition amount_inserted_as_fixed2 (p : PixCodec.params) : Prop :=
  exists fields f v,
    PixCodec.createPayment p = inr (PixCodec.pixData fields)
    /\ firstn 8 (map F.id fields)
       = ["00"; "26"; "52"; "53"; "54"; "58"; "59"; "60"]
    /\ fields !! 4%nat = Some f
    /\ F.value f = Str v
    /\ is_fixed2 v.

(** A finite number below 10^21, the range in which [toFixed] prints
    digits. *)
Definition below_1e21 (x : JS.double) : Prop :=
  match x with
  | JS.DFin _ m e => ((0 <=? e) && (10 ^ 21 <=? m * 2 ^ e))%Z = false
  | _ => False
  end.

(** The fields [createPayment] always builds, around the amount field. *)
Definition head_fields (key : string) : list field :=
  [ Field "00" (Some "Payload Format Indicator") "02" (Str "01");
    Field "26" (Some "Merchant Account Information") "variable"
      (Arr [ Field "00" (Some "GUI") "14" (Str "BR.GOV.BCB.PIX");
             Field "01" (Some "Key") "variable" (Str key) ]);
    Field "52" (Some "Merchant Category Code (MCC)") "04" (Str "0000");
    Field "53" (Some "Transaction Currency") "03" (Str "986") ].

Definition tail_fields (merchantName merchantCity : string) : list field :=
  [ Field "58" (Some "Country Code") "02" (Str "BR");
    Field "59" (Some "Merchant Name") "variable"
      (Str (JS.toUpperCase merchantName));
    Field "60" (Some "Merchant City") "variable"
      (Str (JS.toUpperCase merchantCity)) ].

Definition amount_field (amount : string) : field :=
  Field "54" (Some "Transaction Amount") "variable"
    (Str (JS.toFixed2 (JS.parseFloat amount))).

(** The subfields of the additional-data template. *)
Definition additional_subfields (transactionId description : option string)
  : list field :=
  (if JS.provided transactionId
   then [Field "05" (Some "Transaction ID") "variable"
           (Str (default "" transactionId))]
   else [])
  ++ (if JS.provided description
      then [Field "02" (Some "Description") "variable"
              (Str (default "" description))]
      else [])
  ++ [Field "50" (Some "Payment system specific template") "variable"
        (Arr [ Field "00" (Some "GUI") "17" (Str "BR.GOV.BCB.BRCODE");
               Field "01" (Some "version") "05" (Str "1.0.0") ])].

(** The additional-data field, when a transaction id or a description is
    provided. *)
Definition additional_fields (transactionId description : option string)
  : list field :=
  if JS.provided transactionId || JS.provided description
  then [Field "62" (Some "Additional Data Field Template") "variable"
          (Arr (additional_subfields transactionId description))]
  else [].

(** ** Documents on the wire, and as the scan returns them *)

(** The value of a subfield on the wire: the string itself, or the encoded
    fields of a nested template. *)
Definition sub_value (sf : field) : string :=
  match F.value sf with
  | Arr vs => JS.join (map (fun v => encodeField (F.id v) (F.value v)) vs)
  | Str s => s
  end.

(** The tuples of the subfields of a composite field. *)
Definition sub_items (subFields : list field) : list (string * string) :=
  map (fun sf => (F.id sf, sub_value sf))
    (List.filter (fun sf => JS.truthy (F.id sf)) subFields).

(** The value of a top-level field on the wire. *)
Definition wire_value (f : field) : string :=
  match F.value f with
  | Arr subFields => wire (sub_items subFields)
  | Str s => s
  end.

(** The tuples [encode] writes for a list of top-level fields. *)
Definition top_items (fields : list field) : list (string * string) :=
  map (fun f => (F.id f, wire_value f))
    (List.filter (fun f => JS.truthy (F.id f))
       (List.filter (fun f => negb (String.eqb (F.id f) "63")) fields)).

(** A subfield as the scan returns it: its value is a string. *)
Definition flat_sub (sf : field) : field :=
  Field (F.id sf) None (formatLength (JS.Int (JS.len (sub_value sf))) 2)
    (Str (sub_value sf)).

(** A top-level field as the scan returns it. *)
Definition flat (f : field) : field :=
  Field (F.id f) None (formatLength (JS.Int (JS.len (wire_value f))) 2)
    match F.value f with
    | Arr subFields => Arr (map flat_sub subFields)
    | Str s => Str s
    end.

(** A subfield the nested scan reads back: two-character id that is not
    composite, a value of 1 to 99 characters. *)
Definition scalar_sub (sf : field) : Prop :=
  String.length (F.id sf) = 2%nat
  /\ includes ["26"; "62"] (F.id sf) = false
  /\ (JS.len (sub_value sf) <= 99)%Z
  /\ sub_value sf <> "".

(** A top-level field the scan reads back: two-character id other than
    "63", a value of at most 99 characters, composite exactly when its id
    is 26 or 62. *)
Definition well_formed (f : field) : Prop :=
  String.length (F.id f) = 2%nat
  /\ F.id f <> "63"
  /\ (JS.len (wire_value f) <= 99)%Z
  /\ match F.value f with
     | Str _ => includes ["26"; "62"] (F.id f) = false
     | Arr subFields =>
         includes ["26"; "62"] (F.id f) = true /\ Forall scalar_sub subFields
     end.

(** Every value of the field, and of its subfields, has at most 99
    characters on the wire. *)
Definition fits (f : field) : Prop :=
  (JS.len (wire_value f) <= 99)%Z
  /\ match F.value f with
     | Str _ => True
     | Arr subFields =>
         Forall (fun sf => (JS.len (sub_value sf) <= 99)%Z) subFields
     end.

(** Fuel that suffices to decode the wire string of [fields]. *)
Definition enough_fuel (fields : list field) : nat :=
  4 + List.length fields
  + list_max (map (fun f => match F.value f with
                            | Arr subFields => List.length subFields
                            | Str _ => 0%nat
                            end) fields).

(** Equivalent ids and values: the same id; the same string, or arrays of
    equivalent fields, or an array on one side and the string of its encoded
    fields on the other. *)
Inductive same_value : fvalue -> fvalue -> Prop :=
| same_str v : same_value (Str v) (Str v)
| same_arr subs subs' :
    Forall2 same_content subs subs' -> same_value (Arr subs) (Arr subs')
| same_flat vs :
    same_value (Arr vs)
      (Str (JS.join (map (fun v => encodeField (F.id v) (F.value v)) vs)))
with same_content : field -> field -> Prop :=
| same_field f g :
    F.id f = F.id g -> same_value (F.value f) (F.value g) ->
    same_content f g.

(** The terminal field of a decoded document. *)
Definition crc63 (crc : string) : field :=
  Field "63" (Some "CRC16 - result's 4 nibbles") "04" (Str crc).

(** [decode(encode(document))] returns, with enough fuel, fields equivalent
    to those of the document, followed by the field 63 with the CRC of the
    wire string. *)
Definition round_trips (fields : list field) : Prop :=
  exists w fields',
    PixCodec.encode (PixCodec.pixData fields) = inr w
    /\ (exists fuel0, forall fuel, (fuel0 <= fuel)%nat ->
          PixCodec.decode fuel w
          = Some (inr (PixCodec.pixData
                         (fields' ++ [crc63 (JS.slice w (-4) None)]))))
    /\ Forall2 same_content fields fields'.

(** The round-trip property of the specification, at the parameters [p]. *)
Definition round_trip_claim (p : PixCodec.params) : Prop :=
  exists fields,
    PixCodec.createPayment p = inr (PixCodec.pixData fields)
    /\ round_trips fields.

(** Valid required fields, and a merchant name of 100 characters. *)
Definition long_name_params : PixCodec.params :=
  PixCodec.Params (Some "23484225000166") (Some (JS.replicate 100 "A"))
    (Some "BELO HORIZONTE") None None None.

(** A length of at most 99 prints as two digits that parse back. *)
Definition format_ok (n : Z) : bool :=
  if (n <=? 99)%Z then
    (String.length (formatLength (JS.Int n) 2) =? 2)%nat
    && match JS.parseInt (formatLength (JS.Int n) 2) with
       | JS.Int m => (m =? n)%Z
       | JS.NaN => false
       end
  else true.

(** A 16-bit register value. *)
Definition in16 (z : Z) : Prop := (0 <= z < 2 ^ 16)%Z.

(** * Properties *)

Local Open Scope Z_scope.

Lemma all_bits_spec (k : nat) :
  forall P, all_bits k P = true ->
  forall z, 0 <= z < 2 ^ Z.of_nat k -> P z = true.
Proof.
  induction k as [|k IH]; intros P H z Hz.
  - simpl in H. change (2 ^ Z.of_nat 0) with 1 in Hz.
    replace z with 0 by lia. exact H.
  - simpl in H. apply andb_prop in H. destruct H as [H0 H1].
    rewrite Nat2Z.inj_succ, Z.pow_succ_r in Hz by lia.
    destruct (Z.even z) eqn:Hev.
    + apply Z.even_spec in Hev. destruct Hev as [h ->].
      apply (IH _ H0). lia.
    + assert (Hodd : Z.odd z = true) by (rewrite <- Z.negb_even, Hev; easy).
      apply Z.odd_spec in Hodd. destruct Hodd as [h ->].
      apply (IH _ H1). lia.
Qed.

(** ** Code units *)

Lemma charCode_range (c : ascii) : 0 <= JS.charCode c < 256.
Proof.
  unfold JS.charCode. pose proof (N_ascii_bounded c). lia.
Qed.

(** ** The CRC16 engine *)

Section CRC.

Lemma ToInt32_small (z : Z) : - 2 ^ 31 <= z < 2 ^ 31 -> JS.ToInt32 z = z.
Proof.
  intros Hz. unfold JS.ToInt32.
  change 0xFFFFFFFF with (Z.ones 32).
  rewrite Z.land_ones, Z.mod_small; lia.
Qed.

Lemma lxor_in16 (a b : Z) : in16 a -> in16 b -> in16 (Z.lxor a b).
Proof.
  unfold in16. intros Ha Hb. split.
  - apply Z.lxor_nonneg. lia.
  - destruct (Z.eq_dec (Z.lxor a b) 0) as [->|Hne]; [lia|].
    assert (0 < Z.lxor a b) by (pose proof (proj2 (Z.lxor_nonneg a b)); lia).
    apply Z.log2_lt_pow2; [assumption|].
    pose proof (Z.log2_lxor a b ltac:(lia) ltac:(lia)) as Hl.
    assert (Z.log2 a < 16).
    { destruct (Z.eq_dec a 0) as [->|]; [simpl; lia|].
      apply Z.log2_lt_pow2; lia. }
    assert (Z.log2 b < 16).
    { destruct (Z.eq_dec b 0) as [->|]; [simpl; lia|].
      apply Z.log2_lt_pow2; lia. }
    lia.
Qed.

Lemma crc_bit_checked :
  all_bits 16 (fun r => crc_bit r =? CRCSpec.step_bit r) = true.
Proof. vm_cast_no_check (eq_refl true). Qed.

Lemma crc_bit_spec (crc : Z) :
  in16 crc -> crc_bit crc = CRCSpec.step_bit crc.
Proof.
  intros H. apply Z.eqb_eq.
  apply (all_bits_spec 16 _ crc_bit_checked). exact H.
Qed.

Lemma step_bit_in16 (reg : Z) : in16 (CRCSpec.step_bit reg).
Proof. unfold in16, CRCSpec.step_bit. apply Z.mod_pos_bound. lia. Qed.

Lemma for_count_S {A} (n : nat) (body : A -> A) (x : A) :
  JS.for_count (S n) body x = JS.for_count n body (body x).
Proof. reflexivity. Qed.

Lemma for_chars_cons {A} (body : A -> ascii -> A) c s (x : A) :
  JS.for_chars body (String c s) x = JS.for_chars body s (body x c).
Proof. reflexivity. Qed.

Lemma iterate_S (n : nat) (f : Z -> Z) (x : Z) :
  CRCSpec.iterate (S n) f x = CRCSpec.iterate n f (f x).
Proof. reflexivity. Qed.

Lemma crc_bits_spec (j : nat) :
  forall crc, in16 crc ->
    JS.for_count j crc_bit crc = CRCSpec.iterate j CRCSpec.step_bit crc
    /\ in16 (JS.for_count j crc_bit crc).
Proof.
  induction j as [|j IH]; intros crc H.
  - split; [reflexivity|exact H].
  - rewrite for_count_S, iterate_S, crc_bit_spec by assumption.
    apply IH, step_bit_in16.
Qed.

Lemma xor_unit_spec (crc : Z) (c : ascii) :
  in16 crc ->
  JS.bxor crc (JS.shl (JS.charCode c) 8)
  = Z.lxor crc (JS.charCode c * 2 ^ 8)
  /\ in16 (Z.lxor crc (JS.charCode c * 2 ^ 8)).
Proof.
  intros H. pose proof (charCode_range c) as Hc.
  assert (Hs : JS.shl (JS.charCode c) 8 = JS.charCode c * 2 ^ 8).
  { unfold JS.shl. rewrite (ToInt32_small (JS.charCode c)) by lia.
    change (8 mod 32) with 8. rewrite Z.shiftl_mul_pow2 by lia.
    apply ToInt32_small. lia. }
  assert (Hx : in16 (Z.lxor crc (JS.charCode c * 2 ^ 8))).
  { apply lxor_in16; [assumption|]. unfold in16. lia. }
  split; [|assumption].
  unfold JS.bxor. rewrite Hs.
  rewrite (ToInt32_small crc) by (unfold in16 in H; lia).
  rewrite (ToInt32_small (JS.charCode c * 2 ^ 8)) by lia.
  apply ToInt32_small. unfold in16 in Hx. lia.
Qed.

Lemma crc_unit_spec (crc : Z) (c : ascii) :
  in16 crc ->
  crc_unit crc c = CRCSpec.step_unit crc (JS.charCode c)
  /\ in16 (crc_unit crc c).
Proof.
  intros H. unfold crc_unit, CRCSpec.step_unit.
  destruct (xor_unit_spec crc c H) as [-> Hx].
  apply crc_bits_spec, Hx.
Qed.

Lemma fold_left_cons {A B} (f : A -> B -> A) (b : B) (l : list B) (a : A) :
  fold_left f (b :: l) a = fold_left f l (f a b).
Proof. reflexivity. Qed.

Lemma crc_chars_spec (data : string) :
  forall crc, in16 crc ->
    JS.for_chars crc_unit data crc
    = fold_left CRCSpec.step_unit
        (map JS.charCode (list_ascii_of_string data)) crc
    /\ in16 (JS.for_chars crc_unit data crc).
Proof.
  induction data as [|c data IH]; intros crc H.
  - split; [reflexivity|exact H].
  - rewrite for_chars_cons.
    cbn [list_ascii_of_string map]. rewrite fold_left_cons.
    destruct (crc_unit_spec crc c H) as [Heq Hu].
    rewrite Heq in *. apply IH. exact Hu.
Qed.

Lemma format_checked :
  all_bits 16 (fun v =>
    String.eqb (JS.padStart (JS.toUpperCase (JS.Z_toString 16 v)) 4 "0")
               (CRCSpec.hex4 v)) = true.
Proof. vm_cast_no_check (eq_refl true). Qed.

Lemma hex4_upper_checked :
  all_bits 16 (fun v =>
    all_chars CRCSpec.is_upper_hex (CRCSpec.hex4 v)) = true.
Proof. vm_cast_no_check (eq_refl true). Qed.

Lemma calculateCRC16_checksum (s : string) :
  calculateCRC16 s = CRCSpec.checksum s.
Proof.
  unfold calculateCRC16, CRCSpec.checksum, CRCSpec.register.
  unfold CRCSpec.initial.
  destruct (crc_chars_spec s 0xffff) as [Heq Hin]; [unfold in16; lia|].
  rewrite <- Heq. apply String.eqb_eq.
  apply (all_bits_spec 16 _ format_checked). exact Hin.
Qed.

Lemma calculateCRC16_length (s : string) :
  String.length (calculateCRC16 s) = 4%nat.
Proof. rewrite calculateCRC16_checksum. reflexivity. Qed.

(** C3.  For every string, [calculateCRC16] returns exactly four upper-case
    hexadecimal characters, and they are the zero-padded CRC-16/CCITT-FALSE
    register of the string as the specification computes it (initial value
    0xFFFF, polynomial 0x1021, each code unit XORed into the high byte and
    run through eight most-significant-bit-first steps masked to 16 bits);
    the check value of "123456789" is "29B1". *)
Theorem calculateCRC16_is_ccitt_false (s : string) :
  calculateCRC16 s = CRCSpec.checksum s
  /\ String.length (calculateCRC16 s) = 4%nat
  /\ all_chars CRCSpec.is_upper_hex (calculateCRC16 s) = true
  /\ calculateCRC16 "123456789" = "29B1".
Proof.
  split; [apply calculateCRC16_checksum|].
  split; [apply calculateCRC16_length|].
  split; [|vm_compute; reflexivity].
  rewrite calculateCRC16_checksum. unfold CRCSpec.checksum.
  apply (all_bits_spec 16 _ hex4_upper_checked).
  unfold CRCSpec.register, CRCSpec.initial.
  destruct (crc_chars_spec s 0xffff) as [Heq Hin]; [unfold in16; lia|].
  rewrite <- Heq. exact Hin.
Qed.

End CRC.

(** ** Strings *)

Section Strings.

Lemma sapp_nil_l (s : string) : "" +:+ s = s.
Proof. reflexivity. Qed.

Lemma sapp_cons (c : ascii) (a b : string) :
  String c a +:+ b = String c (a +:+ b).
Proof. reflexivity. Qed.

Lemma sapp_nil_r (s : string) : s +:+ "" = s.
Proof.
  induction s as [|c s IH]; [reflexivity|]. rewrite sapp_cons, IH. reflexivity.
Qed.

Lemma sapp_assoc (a b c : string) : (a +:+ b) +:+ c = a +:+ (b +:+ c).
Proof.
  induction a as [|x a IH]; [reflexivity|].
  rewrite !sapp_cons, IH. reflexivity.
Qed.

Lemma length_sapp (a b : string) :
  String.length (a +:+ b) = (String.length a + String.length b)%nat.
Proof.
  induction a as [|x a IH]; [reflexivity|].
  rewrite sapp_cons. cbn [String.length]. rewrite IH. reflexivity.
Qed.

Lemma len_app (a b : string) : JS.len (a +:+ b) = JS.len a + JS.len b.
Proof. unfold JS.len. rewrite length_sapp. lia. Qed.

Lemma len_nonneg (s : string) : 0 <= JS.len s.
Proof. unfold JS.len. lia. Qed.

Lemma take_0 (s : string) : JS.take 0 s = "".
Proof. destruct s; reflexivity. Qed.

Lemma take_app (a b : string) : JS.take (String.length a) (a +:+ b) = a.
Proof.
  induction a as [|x a IH].
  - apply take_0.
  - rewrite sapp_cons. cbn [String.length JS.take]. rewrite IH. reflexivity.
Qed.

Lemma take_app_more (n : nat) (a b : string) :
  JS.take (String.length a + n) (a +:+ b) = a +:+ JS.take n b.
Proof.
  induction a as [|x a IH].
  - reflexivity.
  - rewrite !sapp_cons. cbn [String.length JS.take Nat.add].
    rewrite IH. reflexivity.
Qed.

Lemma drop_app (a b : string) : JS.drop (String.length a) (a +:+ b) = b.
Proof.
  induction a as [|x a IH].
  - destruct b; reflexivity.
  - rewrite sapp_cons. cbn [String.length JS.drop]. exact IH.
Qed.

Lemma take_all (n : nat) (s : string) :
  (String.length s <= n)%nat -> JS.take n s = s.
Proof.
  revert n. induction s as [|c s IH]; intros n Hn.
  - destruct n; reflexivity.
  - destruct n as [|n]; cbn [String.length] in Hn; [lia|].
    cbn [JS.take]. rewrite IH by lia. reflexivity.
Qed.

Lemma drop_all (n : nat) (s : string) :
  (String.length s <= n)%nat -> JS.drop n s = "".
Proof.
  revert n. induction s as [|c s IH]; intros n Hn.
  - destruct n; reflexivity.
  - destruct n as [|n]; cbn [String.length] in Hn; [lia|].
    cbn [JS.drop]. apply IH. lia.
Qed.

Lemma length_take (n : nat) (s : string) :
  String.length (JS.take n s) = Nat.min n (String.length s).
Proof.
  revert n. induction s as [|c s IH]; intros [|n];
    cbn [JS.take String.length Nat.min]; try reflexivity.
  rewrite IH. reflexivity.
Qed.

Lemma length_zero (s : string) : String.length s = 0%nat -> s = "".
Proof. destruct s; [reflexivity|discriminate]. Qed.

Lemma truthy_true (s : string) : JS.truthy s = true <-> s <> "".
Proof.
  unfold JS.truthy. rewrite negb_true_iff. apply String.eqb_neq.
Qed.

(** [(pre + t).slice(0, -4)] and [(pre + t).slice(-4)] for a four-character
    [t]. *)
Lemma slice_front (pre t : string) :
  String.length t = 4%nat -> JS.slice (pre +:+ t) 0 (Some (-4)) = pre.
Proof.
  intros Ht. unfold JS.slice, JS.substring.
  rewrite len_app. unfold JS.len. rewrite Ht.
  change (0 <? 0) with false. change (-4 <? 0) with true. cbv iota.
  rewrite (Z.max_l _ 0) by lia. rewrite Z.min_l by lia.
  rewrite Z.max_r by lia.
  replace (Z.to_nat (_ - 0)) with (String.length pre) by lia.
  change (Z.to_nat 0) with 0%nat. cbn [JS.drop].
  replace (JS.drop 0 (pre +:+ t)) with (pre +:+ t) by (destruct (pre +:+ t); reflexivity).
  apply take_app.
Qed.

Lemma slice_back (pre t : string) :
  String.length t = 4%nat -> JS.slice (pre +:+ t) (-4) None = t.
Proof.
  intros Ht. unfold JS.slice, JS.substring.
  rewrite len_app. unfold JS.len. rewrite Ht.
  change (-4 <? 0) with true. cbv iota.
  rewrite (Z.max_l _ 0) by lia. rewrite Z.max_r by lia.
  replace (Z.to_nat (_ - _)) with 4%nat by lia.
  replace (Z.to_nat _) with (String.length pre) by lia.
  rewrite drop_app. apply take_all. lia.
Qed.

End Strings.

(** ** Fuel *)

Section Fuel.

Lemma scan_S gas rec s p fs :
  scan (S gas) rec s p fs
  = if JS.lt p (JS.Int (JS.len s - 4)) then
      match scan_body rec s p with
      | Some (f, p') => scan gas rec s p' (fs ++ [f])
      | None => None
      end
    else Some (p, fs).
Proof. reflexivity. Qed.

Lemma decodeFields_S fuel s :
  decodeFields (S fuel) s
  = match scan fuel (decodeFields fuel) s (JS.Int 0) [] with
    | Some (position, fields) =>
        if JS.lt position (JS.Int (JS.len s))
        then Some (fields ++ [crc_field s position])
        else Some fields
    | None => None
    end.
Proof. reflexivity. Qed.

Lemma scan_body_mono rec rec' s p out :
  extends rec rec' ->
  scan_body rec s p = Some out -> scan_body rec' s p = Some out.
Proof.
  intros Hext. unfold scan_body.
  destruct (includes _ _); [|auto].
  destruct (rec _) as [nested|] eqn:Hrec; [|discriminate].
  rewrite (Hext _ _ Hrec). auto.
Qed.

Lemma scan_mono gas :
  forall gas' rec rec' s p fs out,
    extends rec rec' -> (gas <= gas')%nat ->
    scan gas rec s p fs = Some out -> scan gas' rec' s p fs = Some out.
Proof.
  induction gas as [|gas IH]; intros gas' rec rec' s p fs out Hext Hle H.
  - discriminate.
  - destruct gas' as [|gas']; [lia|].
    rewrite scan_S in *.
    destruct (JS.lt p _); [|assumption].
    destruct (scan_body rec s p) as [[f p']|] eqn:Hb; [|discriminate].
    rewrite (scan_body_mono _ _ _ _ _ Hext Hb).
    eapply IH; eauto. lia.
Qed.

Lemma decodeFields_mono fuel :
  forall fuel' s r,
    (fuel <= fuel')%nat ->
    decodeFields fuel s = Some r -> decodeFields fuel' s = Some r.
Proof.
  induction fuel as [|fuel IH]; intros fuel' s r Hle H.
  - discriminate.
  - destruct fuel' as [|fuel']; [lia|].
    rewrite decodeFields_S in *.
    destruct (scan fuel _ s _ _) as [[p fs]|] eqn:Hs; [|discriminate].
    rewrite (scan_mono fuel fuel' (decodeFields fuel) (decodeFields fuel')
               s (JS.Int 0) [] (p, fs)); auto; try lia.
    intros s' r' Hr. apply (IH fuel' s' r'); [lia|assumption].
Qed.

Lemma decodeFields_det fuel fuel' s r r' :
  decodeFields fuel s = Some r -> decodeFields fuel' s = Some r' -> r = r'.
Proof.
  intros H H'.
  destruct (Nat.le_ge_cases fuel fuel') as [Hle|Hle].
  - rewrite (decodeFields_mono _ _ _ _ Hle H) in H'. congruence.
  - rewrite (decodeFields_mono _ _ _ _ Hle H') in H. congruence.
Qed.

Lemma decode_mono fuel fuel' s r :
  (fuel <= fuel')%nat ->
  PixCodec.decode fuel s = Some r -> PixCodec.decode fuel' s = Some r.
Proof.
  intros Hle. unfold PixCodec.decode.
  destruct (negb (JS.truthy s)); [auto|].
  destruct (negb _); [auto|].
  destruct (decodeFields fuel s) as [fields|] eqn:H; [|discriminate].
  rewrite (decodeFields_mono _ _ _ _ Hle H). auto.
Qed.

End Fuel.

(** ** decode: the guards *)

Section DecodeGuards.
Import PixCodec.

Lemma decode_empty (fuel : nat) :
  decode fuel ""
  = Some (inl (JS.Error "Invalid PIX string. Expected non-empty string.")).
Proof. reflexivity. Qed.

Lemma empty_guard_is_not_mismatch (computed provided : string) :
  JS.Error "Invalid PIX string. Expected non-empty string."
  <> ChecksumMismatch computed provided.
Proof.
  unfold ChecksumMismatch. intros H. inversion H.
Qed.

(** C10.  [decode("")] raises the InvalidInput error of the non-empty-string
    guard; the checksum comparison is never reached, so the error is not a
    checksum mismatch, whatever the fuel. *)
Theorem decode_empty_is_invalid_input (fuel : nat) :
  decode fuel ""
  = Some (inl (JS.Error "Invalid PIX string. Expected non-empty string."))
  /\ InvalidInput (JS.Error "Invalid PIX string. Expected non-empty string.")
  /\ forall computed provided,
       decode fuel "" <> Some (inl (ChecksumMismatch computed provided)).
Proof.
  split; [apply decode_empty|]. split; [left; reflexivity|].
  intros computed provided H. rewrite decode_empty in H.
  apply (empty_guard_is_not_mismatch computed provided). congruence.
Qed.

Lemma decode_mismatch fuel s :
  s <> "" -> providedCRC s <> computedCRC s ->
  decode fuel s
  = Some (inl (ChecksumMismatch (computedCRC s) (providedCRC s))).
Proof.
  intros Hne Hcrc. unfold decode.
  apply truthy_true in Hne. rewrite Hne. cbn [negb].
  fold (providedCRC s). fold (computedCRC s).
  apply String.eqb_neq in Hcrc. rewrite Hcrc. reflexivity.
Qed.

Lemma encode_shape doc wire :
  encode doc = inr wire ->
  exists body,
    wire = (body +:+ "6304") +:+ calculateCRC16 (body +:+ "6304").
Proof.
  unfold encode. destruct (doc !! "value"); [|discriminate].
  intros H. injection H as <-. eexists. reflexivity.
Qed.

(** C4, counterexample.  The last four characters of the empty string (none)
    differ from the CRC16 of what precedes them ("FFFF"), yet [decode("")]
    does not raise the checksum mismatch: the non-empty-string guard answers
    first. *)
Lemma decode_mismatch_not_reported_on_empty : ~ mismatch_is_reported "".
Proof.
  unfold mismatch_is_reported. intros H.
  assert (Hne : providedCRC "" <> computedCRC "")
    by (vm_compute; discriminate).
  specialize (H Hne 0%nat). rewrite decode_empty in H.
  apply (empty_guard_is_not_mismatch (computedCRC "") (providedCRC "")).
  congruence.
Qed.

(** C4, amended.  For every non-empty input whose last four characters
    differ from the CRC16 of the characters before them, [decode] raises the
    checksum mismatch carrying the computed and the provided value; in
    particular, replacing the last four characters of an [encode] output by
    any other four characters makes [decode] fail this way. *)
Theorem decode_rejects_bad_checksum
    (fuel : nat) (s : string) (doc : gmap string (list field))
    (wire t : string) :
  (s <> "" -> providedCRC s <> computedCRC s ->
   decode fuel s
   = Some (inl (ChecksumMismatch (computedCRC s) (providedCRC s))))
  /\ (encode doc = inr wire -> String.length t = 4%nat ->
      t <> JS.slice wire (-4) None ->
      decode fuel (JS.slice wire 0 (Some (-4)) +:+ t)
      = Some (inl (ChecksumMismatch (JS.slice wire (-4) None) t))).
Proof.
  split; [apply decode_mismatch|].
  intros Henc Ht Hdiff.
  destruct (encode_shape _ _ Henc) as [body ->].
  pose proof (calculateCRC16_length (body +:+ "6304")) as Hlen.
  rewrite slice_front, slice_back in * by assumption.
  set (pre := body +:+ "6304") in *.
  assert (Hp : providedCRC (pre +:+ t) = t)
    by (unfold providedCRC; apply slice_back; assumption).
  assert (Hc : computedCRC (pre +:+ t) = calculateCRC16 pre)
    by (unfold computedCRC; rewrite slice_front by assumption; reflexivity).
  rewrite <- Hp at 2. rewrite <- Hc. apply decode_mismatch.
  - intros Hnil. apply (f_equal String.length) in Hnil.
    rewrite length_sapp, Ht in Hnil. cbn in Hnil. lia.
  - rewrite Hp, Hc. exact Hdiff.
Qed.

Lemma decode_rejects_bad_checksum_witness :
  ("abc" <> "" /\ providedCRC "abc" <> computedCRC "abc" /\
   decode 0 "abc" = Some (inl (ChecksumMismatch "FFFF" "abc")))
  /\ (encode (pixData []) = inr "63046007" /\ String.length "0000" = 4%nat /\
      "0000" <> JS.slice "63046007" (-4) None /\
      decode 0 "63040000" = Some (inl (ChecksumMismatch "6007" "0000"))).
Proof.
  pose proof (decode_rejects_bad_checksum 0 "abc" (pixData []) "63046007"
                "0000") as [H1 H2].
  assert (Ha : "abc" <> "") by discriminate.
  assert (Hb : providedCRC "abc" <> computedCRC "abc")
    by (vm_compute; discriminate).
  assert (Hc : encode (pixData []) = inr "63046007")
    by (vm_compute; reflexivity).
  assert (Hd : String.length "0000" = 4%nat) by reflexivity.
  assert (He : "0000" <> JS.slice "63046007" (-4) None)
    by (vm_compute; discriminate).
  split.
  - split; [exact Ha|]. split; [exact Hb|]. exact (H1 Ha Hb).
  - split; [exact Hc|]. split; [exact Hd|]. split; [exact He|].
    exact (H2 Hc Hd He).
Defined.

End DecodeGuards.

(** ** decode: the test vector, the description pass *)

Section Decode.
Import PixCodec.

Lemma decode_accepts fuel s fields :
  s <> "" -> providedCRC s = computedCRC s ->
  decodeFields fuel s = Some fields ->
  decode fuel s = Some (inr (pixData (map describe fields))).
Proof.
  intros Hne Hcrc Hf. unfold decode.
  apply truthy_true in Hne. rewrite Hne. cbn [negb].
  fold (providedCRC s). fold (computedCRC s).
  rewrite Hcrc, String.eqb_refl. cbn [negb]. rewrite Hf. reflexivity.
Qed.

Lemma decode_success fuel s obj :
  decode fuel s = Some (inr obj) ->
  exists fields,
    decodeFields fuel s = Some fields /\ obj = pixData (map describe fields).
Proof.
  unfold decode. destruct (negb (JS.truthy s)); [discriminate|].
  destruct (negb _); [discriminate|].
  destruct (decodeFields fuel s) as [fields|]; [|discriminate].
  intros H. injection H as <-. eauto.
Qed.

Lemma decodeFields_FINAL_KEY :
  exists fields,
    decodeFields 12 FINAL_KEY = Some fields
    /\ map describe fields = FINAL_KEY_fields.
Proof. eexists. split; vm_compute; reflexivity. Qed.

Lemma decode_FINAL_KEY (fuel : nat) :
  decode (12 + fuel) FINAL_KEY = Some (inr (pixData FINAL_KEY_fields)).
Proof.
  apply (decode_mono 12); [lia|].
  destruct decodeFields_FINAL_KEY as (fields & Hf & <-).
  apply decode_accepts; [discriminate|vm_compute; reflexivity|exact Hf].
Qed.

(** C1.  [createPayment] on the parameters of the test suite, then
    [encode], gives exactly the wire string [FINAL_KEY]; decoding that string
    (with any fuel from 12 on) gives a top-level field "54" with the value
    "123.45" and a top-level field "59" with the value "WISEFOX". *)
Theorem end_to_end_vector (fuel : nat) :
  exists doc f54 f59,
    createPayment example_params = inr doc
    /\ encode doc = inr FINAL_KEY
    /\ decode (12 + fuel) FINAL_KEY = Some (inr (pixData FINAL_KEY_fields))
    /\ find_id "54" FINAL_KEY_fields = Some f54
    /\ F.value f54 = Str "123.45"
    /\ find_id "59" FINAL_KEY_fields = Some f59
    /\ F.value f59 = Str "WISEFOX".
Proof.
  eexists. eexists. eexists.
  split; [reflexivity|].
  split; [vm_compute; reflexivity|].
  split; [apply decode_FINAL_KEY|].
  split; [reflexivity|]. split; [reflexivity|].
  split; reflexivity.
Qed.

(** *** Scanned fields carry no description *)

Lemma scan_body_undescribed rec s p f p' :
  (forall v r, rec v = Some r -> Forall undescribed r) ->
  scan_body rec s p = Some (f, p') -> undescribed f.
Proof.
  intros Hrec. unfold scan_body.
  destruct (includes _ _).
  - destruct (rec _) as [nested|] eqn:Hn; [|discriminate].
    intros H. injection H as <- _. split; [reflexivity|].
    cbn [F.value]. apply Hrec in Hn.
    eapply List.Forall_impl; [|exact Hn]. intros sf [Hd _]. exact Hd.
  - intros H. injection H as <- _. split; [reflexivity|exact I].
Qed.

Lemma scan_undescribed gas :
  forall rec s p fs p' fs',
    (forall v r, rec v = Some r -> Forall undescribed r) ->
    Forall undescribed fs ->
    scan gas rec s p fs = Some (p', fs') -> Forall undescribed fs'.
Proof.
  induction gas as [|gas IH]; intros rec s p fs p' fs' Hrec Hfs H.
  - discriminate.
  - rewrite scan_S in H. destruct (JS.lt p _).
    + destruct (scan_body rec s p) as [[f q]|] eqn:Hb; [|discriminate].
      eapply IH; [exact Hrec| |exact H].
      apply Forall_app. split; [exact Hfs|].
      constructor; [|constructor].
      eapply scan_body_undescribed; eauto.
    + injection H as _ <-. exact Hfs.
Qed.

Lemma decodeFields_undescribed fuel :
  forall s r, decodeFields fuel s = Some r -> Forall undescribed r.
Proof.
  induction fuel as [|fuel IH]; intros s r H.
  - discriminate.
  - rewrite decodeFields_S in H.
    destruct (scan fuel _ s _ _) as [[p fs]|] eqn:Hs; [|discriminate].
    apply scan_undescribed in Hs; [|exact IH|constructor].
    destruct (JS.lt p _); injection H as <-; [|exact Hs].
    apply Forall_app. split; [exact Hs|].
    constructor; [|constructor]. split; [reflexivity|exact I].
Qed.

(** *** The lookup table *)

Lemma descriptionsMap_lookup (id : string) :
  descriptionsMap !! id = top_label id.
Proof.
  unfold descriptionsMap, top_label.
  cbn [list_to_map foldr uncurry fst snd].
  repeat match goal with
  | |- (<[?k:=_]> _) !! id = _ =>
      rewrite lookup_insert; destruct (decide (k = id)) as [<-|?];
      [reflexivity|rewrite (proj2 (String.eqb_neq id k)) by congruence]
  end.
  apply lookup_empty.
Qed.

Lemma top_label_truthy (id d : string) :
  top_label id = Some d -> JS.truthy d = true.
Proof.
  unfold top_label.
  repeat (destruct (String.eqb id _);
          [intros H; injection H as <-; reflexivity|]).
  discriminate.
Qed.

Lemma describe_sub_labelled parent sf :
  F.description sf = None ->
  describe_sub parent sf
  = Field (F.id sf) (sub_label parent (F.id sf)) (F.length sf) (F.value sf).
Proof.
  destruct sf as [i d l v]. cbn [F.description F.id F.length F.value].
  intros ->. unfold describe_sub, sub_label, describe_if, set_description.
  destruct (String.eqb parent "26").
  - cbn [F.id]. destruct (String.eqb_spec i "00") as [->|H0].
    + reflexivity.
    + cbn [F.id]. destruct (String.eqb i "01"); reflexivity.
  - destruct (String.eqb parent "62"); [|reflexivity].
    cbn [F.id]. destruct (String.eqb_spec i "05") as [->|H0].
    + reflexivity.
    + cbn [F.id]. destruct (String.eqb i "50"); reflexivity.
Qed.

Lemma describe_labelled f : undescribed f -> describe f = labelled f.
Proof.
  destruct f as [i d l v]. unfold undescribed.
  cbn [F.description F.value]. intros [-> Hsub].
  unfold describe, labelled. cbn [F.id F.length F.value F.description].
  rewrite descriptionsMap_lookup.
  assert (Hv : forall d0,
    F.value (Field i d0 l v) = v) by reflexivity.
  destruct (top_label i) as [d|] eqn:Hl.
  - rewrite (top_label_truthy _ _ Hl). unfold set_description.
    cbn [F.id F.length F.value F.description].
    destruct v as [sv|subs]; [reflexivity|].
    f_equal. f_equal. apply map_ext_Forall.
    eapply List.Forall_impl; [|exact Hsub].
    intros sf Hd. apply describe_sub_labelled, Hd.
  - cbn [F.id F.length F.value F.description].
    destruct v as [sv|subs]; [reflexivity|].
    f_equal. f_equal. apply map_ext_Forall.
    eapply List.Forall_impl; [|exact Hsub].
    intros sf Hd. apply describe_sub_labelled, Hd.
Qed.

(** C5, counterexample.  Decoding [FINAL_KEY] succeeds, and the object it
    returns has no property "fields": the list is under "value". *)
Lemma decode_result_has_no_fields_property :
  decode 12 FINAL_KEY = Some (inr (pixData FINAL_KEY_fields))
  /\ ~ has_shape_fields (pixData FINAL_KEY_fields)
  /\ pixData FINAL_KEY_fields !! "fields" = None
  /\ pixData FINAL_KEY_fields !! "value" = Some FINAL_KEY_fields.
Proof.
  split.
  - apply (decode_FINAL_KEY 0).
  - unfold has_shape_fields, pixData. split; [|split].
    + intros [l H]. apply (f_equal (fun m => m !! "value")) in H.
      rewrite lookup_singleton_eq, lookup_singleton_ne in H by discriminate.
      discriminate.
    + apply lookup_singleton_ne. discriminate.
    + apply lookup_singleton_eq.
Qed.

(** C5, amended.  On every successful [decode] the result is the object
    [{ value: <annotated list> }]: the scanned fields, each top-level field
    with the label the fixed table gives its id (00, 26, 52, 53, 54, 58, 59,
    60, 62, 63), the subfields 00 and 01 of a field 26 with "GUI" and "Key",
    the subfields 05 and 50 of a field 62 with "Transaction ID" and
    "Payment system specific template", and no description on any other
    field. *)
Theorem decode_annotates (fuel : nat) (s : string)
    (obj : gmap string (list field)) :
  decode fuel s = Some (inr obj) ->
  exists fields,
    decodeFields fuel s = Some fields
    /\ obj = {[ "value" := map labelled fields ]}.
Proof.
  intros H. destruct (decode_success _ _ _ H) as (fields & Hf & ->).
  exists fields. split; [exact Hf|]. unfold pixData. f_equal.
  apply map_ext_Forall.
  eapply List.Forall_impl; [|exact (decodeFields_undescribed _ _ _ Hf)].
  intros f Hu. apply describe_labelled, Hu.
Qed.

Lemma decode_annotates_witness :
  decode 12 FINAL_KEY = Some (inr (pixData FINAL_KEY_fields))
  /\ exists fields,
       decodeFields 12 FINAL_KEY = Some fields
       /\ pixData FINAL_KEY_fields = {[ "value" := map labelled fields ]}.
Proof.
  pose proof (decode_FINAL_KEY 0) as H.
  split; [exact H|]. exact (decode_annotates 12 FINAL_KEY _ H).
Defined.

End Decode.

(** ** Scanning tuples *)

Section Scan.

Lemma app_nonempty_r (a b : string) : b <> "" -> a +:+ b <> "".
Proof.
  intros Hb H. apply Hb. apply length_zero.
  apply (f_equal String.length) in H. rewrite length_sapp in H.
  cbn [String.length] in H. lia.
Qed.

Lemma app_nonempty_l (a b : string) : a <> "" -> a +:+ b <> "".
Proof.
  intros Ha H. apply Ha. apply length_zero.
  apply (f_equal String.length) in H. rewrite length_sapp in H.
  cbn [String.length] in H. lia.
Qed.

Lemma len_pos (s : string) : s <> "" -> 0 < JS.len s.
Proof. destruct s; [congruence|]. intros _. unfold JS.len. cbn. lia. Qed.

Lemma len_length (s : string) (n : nat) :
  String.length s = n -> JS.len s = Z.of_nat n.
Proof. intros <-. reflexivity. Qed.

Lemma drop_0 (s : string) : JS.drop 0 s = s.
Proof. destruct s; reflexivity. Qed.

(** [(pre + x + rest).substr(pre.length, x.length)] is [x]. *)
Lemma substr_mid (pre x rest : string) (p n : Z) :
  p = JS.len pre -> n = JS.len x ->
  JS.substr (pre +:+ (x +:+ rest)) (JS.Int p) (JS.Int n) = x.
Proof.
  intros -> ->. unfold JS.substr, JS.substring, JS.toInteger.
  rewrite !len_app.
  pose proof (len_nonneg pre). pose proof (len_nonneg x).
  pose proof (len_nonneg rest).
  destruct (Z.ltb_spec (JS.len pre) 0); [lia|].
  rewrite (Z.min_l (JS.len pre)) by lia.
  rewrite (Z.max_l (JS.len x)) by lia.
  rewrite (Z.min_l (JS.len x)) by lia.
  rewrite Z.min_l by lia.
  replace (JS.len pre + JS.len x - JS.len pre) with (JS.len x) by lia.
  unfold JS.len. rewrite !Nat2Z.id.
  rewrite drop_app. apply take_app.
Qed.

Lemma format_checked_99 : all_bits 7 format_ok = true.
Proof. vm_compute. reflexivity. Qed.

Lemma formatLength_2 (n : Z) :
  0 <= n <= 99 ->
  String.length (formatLength (JS.Int n) 2) = 2%nat
  /\ JS.parseInt (formatLength (JS.Int n) 2) = JS.Int n.
Proof.
  intros Hn.
  assert (H : format_ok n = true)
    by (apply (all_bits_spec 7 _ format_checked_99); cbn; lia).
  unfold format_ok in H. destruct (Z.leb_spec n 99); [|lia].
  apply andb_prop in H. destruct H as [H1 H2].
  split; [apply Nat.eqb_eq, H1|].
  destruct (JS.parseInt _); [discriminate|].
  apply Z.eqb_eq in H2. congruence.
Qed.

Lemma len_tlv (id v : string) :
  String.length id = 2%nat -> JS.len v <= 99 ->
  JS.len (tlv id v) = 4 + JS.len v.
Proof.
  intros Hid Hv. unfold tlv. rewrite !len_app.
  pose proof (len_nonneg v).
  destruct (formatLength_2 (JS.len v)) as [Hl _]; [lia|].
  rewrite (len_length _ _ Hid), (len_length _ _ Hl). lia.
Qed.

(** One turn of the loop in front of a tuple. *)
Lemma scan_body_tlv rec pre id v rest :
  String.length id = 2%nat -> JS.len v <= 99 ->
  scan_body rec (pre +:+ (tlv id v +:+ rest)) (JS.Int (JS.len pre))
  = match scanned rec id v with
    | Some f => Some (f, JS.Int (JS.len pre + (4 + JS.len v)))
    | None => None
    end.
Proof.
  intros Hid Hv. pose proof (len_nonneg v) as Hv0.
  destruct (formatLength_2 (JS.len v)) as [Hl Hp]; [lia|].
  set (LL := formatLength (JS.Int (JS.len v)) 2) in *.
  set (s := pre +:+ (tlv id v +:+ rest)).
  assert (E1 : JS.substr s (JS.Int (JS.len pre)) (JS.Int 2) = id).
  { unfold s, tlv. rewrite !sapp_assoc.
    apply substr_mid; [reflexivity|]. rewrite (len_length _ _ Hid).
    reflexivity. }
  assert (E2 : JS.substr s (JS.add (JS.Int (JS.len pre)) (JS.Int 2))
                 (JS.Int 2) = LL).
  { unfold s, tlv. fold LL. rewrite !sapp_assoc.
    rewrite <- (sapp_assoc pre id). cbn [JS.add].
    apply substr_mid.
    - rewrite len_app, (len_length _ _ Hid). reflexivity.
    - rewrite (len_length _ _ Hl). reflexivity. }
  assert (E3 : JS.substr s (JS.add (JS.Int (JS.len pre)) (JS.Int 4))
                 (JS.Int (JS.len v)) = v).
  { unfold s, tlv. fold LL. rewrite !sapp_assoc.
    rewrite <- (sapp_assoc id LL). rewrite <- (sapp_assoc pre (id +:+ LL)).
    cbn [JS.add]. apply substr_mid; [|reflexivity].
    rewrite !len_app, (len_length _ _ Hid), (len_length _ _ Hl). lia. }
  unfold scan_body. rewrite E1, E2, Hp, E3.
  unfold scanned. fold LL.
  change (JS.padStart (JS.toString (JS.Int (JS.len v))) 2 "0") with LL.
  destruct (includes _ id).
  - destruct (rec v); reflexivity.
  - reflexivity.
Qed.

Lemma scan_tlv gas rec pre id v rest fs f :
  String.length id = 2%nat -> JS.len v <= 99 ->
  v <> "" \/ rest <> "" ->
  scanned rec id v = Some f ->
  scan (S gas) rec (pre +:+ (tlv id v +:+ rest)) (JS.Int (JS.len pre)) fs
  = scan gas rec (pre +:+ (tlv id v +:+ rest))
      (JS.Int (JS.len pre + (4 + JS.len v))) (fs ++ [f]).
Proof.
  intros Hid Hv Hne Hf. rewrite scan_S.
  rewrite scan_body_tlv, Hf by assumption.
  replace (JS.lt _ _) with true; [reflexivity|].
  symmetry. cbn [JS.lt]. apply Z.ltb_lt.
  rewrite !len_app, len_tlv by assumption.
  pose proof (len_nonneg v). pose proof (len_nonneg rest).
  destruct Hne as [Hne|Hne]; apply len_pos in Hne; lia.
Qed.

Lemma scan_exit gas rec s p fs :
  JS.lt p (JS.Int (JS.len s - 4)) = false ->
  scan (S gas) rec s p fs = Some (p, fs).
Proof. intros H. rewrite scan_S, H. reflexivity. Qed.

Lemma wire_cons it items : wire (it :: items) = tlv (fst it) (snd it) +:+ wire items.
Proof. reflexivity. Qed.

Lemma scan_items rec items fitems :
  Forall2 (item_ok rec) items fitems ->
  forall gas pre rest fs,
    can_scan items rest ->
    scan (List.length items + gas) rec (pre +:+ (wire items +:+ rest))
      (JS.Int (JS.len pre)) fs
    = scan gas rec (pre +:+ (wire items +:+ rest))
        (JS.Int (JS.len pre + JS.len (wire items))) (fs ++ fitems).
Proof.
  induction 1 as [|it f items fitems (Hid & Hv & Hf) _ IH];
    intros gas pre rest fs Hcs.
  - cbn [List.length wire map JS.join fold_right Nat.add].
    change (JS.len "") with 0. rewrite Z.add_0_r, List.app_nil_r.
    reflexivity.
  - destruct Hcs as [Hne Hcs]. rewrite wire_cons.
    cbn [List.length Nat.add]. rewrite (sapp_assoc (tlv _ _)).
    rewrite (scan_tlv _ _ _ _ _ _ _ f) by assumption.
    specialize (IH gas (pre +:+ tlv (fst it) (snd it)) rest (fs ++ [f]) Hcs).
    rewrite (sapp_assoc pre) in IH.
    rewrite len_app, len_tlv in IH by assumption. rewrite IH.
    rewrite len_app, len_tlv by assumption.
    rewrite <- List.app_assoc. cbn [List.app].
    f_equal. f_equal. lia.
Qed.

Lemma can_scan_rest items rest : rest <> "" -> can_scan items rest.
Proof.
  intros Hr. induction items as [|it items IH]; [exact I|].
  split; [|exact IH]. right. apply app_nonempty_r, Hr.
Qed.

Lemma can_scan_nonempty items :
  Forall (fun it => snd it <> "") items -> can_scan items "".
Proof.
  induction 1 as [|it items Hne _ IH]; [exact I|].
  split; [left; exact Hne|exact IH].
Qed.

(** A whole string of tuples: the scan consumes it, and nothing is left for
    the terminal field. *)
Lemma decodeFields_items fuel items fitems :
  Forall2 (item_ok (decodeFields fuel)) items fitems ->
  can_scan items "" ->
  (List.length items < fuel)%nat ->
  decodeFields (S fuel) (wire items) = Some fitems.
Proof.
  intros Hok Hcs Hfuel. rewrite decodeFields_S.
  pose proof (scan_items _ _ _ Hok (fuel - List.length items) "" "" [] Hcs)
    as Hs.
  rewrite sapp_nil_l, sapp_nil_r in Hs.
  replace (List.length items + (fuel - List.length items))%nat with fuel
    in Hs by lia.
  change (JS.len "") with 0 in Hs. rewrite Z.add_0_l in Hs.
  cbn [List.app] in Hs. rewrite Hs.
  destruct (fuel - List.length items)%nat as [|gas] eqn:Hg; [lia|].
  rewrite scan_exit by (cbn [JS.lt]; apply Z.ltb_ge; lia).
  replace (JS.lt _ _) with false; [reflexivity|].
  symmetry. cbn [JS.lt]. apply Z.ltb_ge. lia.
Qed.

End Scan.

(** ** decodeFields: where the scan stops, and where it does not *)

Section ScanExit.

Lemma scan_exit_state gas :
  forall rec s p fs p' fs',
    scan gas rec s p fs = Some (p', fs') ->
    JS.lt p' (JS.Int (JS.len s - 4)) = false.
Proof.
  induction gas as [|gas IH]; intros rec s p fs p' fs' H.
  - discriminate.
  - rewrite scan_S in H. destruct (JS.lt p _) eqn:Hlt.
    + destruct (scan_body rec s p) as [[f q]|]; [|discriminate].
      eapply IH. exact H.
    + injection H as <- _. exact Hlt.
Qed.

Lemma decodeFields_exit fuel s result :
  decodeFields fuel s = Some result ->
  exists gas position fields,
    fuel = S gas
    /\ scan gas (decodeFields gas) s (JS.Int 0) [] = Some (position, fields)
    /\ JS.lt position (JS.Int (JS.len s - 4)) = false
    /\ if JS.lt position (JS.Int (JS.len s))
       then exists v, result = fields ++ [Field "63" None "04" (Str v)]
       else result = fields.
Proof.
  destruct fuel as [|gas]; [discriminate|].
  rewrite decodeFields_S.
  destruct (scan gas _ s _ _) as [[position fields]|] eqn:Hs; [|discriminate].
  intros H. exists gas, position, fields.
  split; [reflexivity|]. split; [exact Hs|].
  split; [exact (scan_exit_state _ _ _ _ _ _ _ Hs)|].
  destruct (JS.lt position _); injection H as <-; [|reflexivity].
  eexists. reflexivity.
Qed.

(** The scan in front of the trailing tuple "6304" + CRC parses it as an
    ordinary field and stops at the end of the string. *)
Lemma scan_crc_tuple gas rec body crc fs :
  String.length crc = 4%nat ->
  scan (2 + gas) rec (body +:+ ("6304" +:+ crc)) (JS.Int (JS.len body)) fs
  = Some (JS.Int (JS.len (body +:+ ("6304" +:+ crc))),
          fs ++ [Field "63" None "04" (Str crc)]).
Proof.
  intros Hcrc.
  assert (Hlen : JS.len crc = 4) by (apply (len_length _ 4), Hcrc).
  assert (Ht : "6304" +:+ crc = tlv "63" crc).
  { unfold tlv. rewrite Hlen. reflexivity. }
  rewrite Ht. rewrite <- (sapp_nil_r (tlv "63" crc)).
  change (2 + gas)%nat with (S (S gas)).
  rewrite (scan_tlv _ _ _ _ _ _ _ (Field "63" None "04" (Str crc)));
    [|reflexivity|lia|left; intros ->; discriminate|].
  - rewrite scan_exit.
    + rewrite sapp_nil_r, len_app, len_tlv by (reflexivity || lia).
      reflexivity.
    + cbn [JS.lt]. apply Z.ltb_ge.
      rewrite sapp_nil_r, len_app, len_tlv by (reflexivity || lia). lia.
  - unfold scanned. rewrite Hlen. reflexivity.
Qed.




(** *** A length that parses negative *)

Lemma scan_stuck s :
  JS.lt (JS.Int 0) (JS.Int (JS.len s - 4)) = true ->
  (forall rec, exists f, scan_body rec s (JS.Int 0) = Some (f, JS.Int 0)) ->
  forall gas rec fs, scan gas rec s (JS.Int 0) fs = None.
Proof.
  intros Hlt Hbody gas. induction gas as [|gas IH]; intros rec fs.
  - reflexivity.
  - rewrite scan_S, Hlt. destruct (Hbody rec) as [f ->]. apply IH.
Qed.

(** C9.  On "00-4AAAAA" the field length parses to -4, the position stays
    at 0 and the loop never exits: whatever the fuel, [decodeFields] does not
    return.  The same happens behind a valid CRC, so [decode] does not return
    on "00-46304340B" either.  (A declared length that overruns the input,
    as in "00991", does end the scan, with the truncated value.) *)
Theorem decodeFields_does_not_return (fuel : nat) :
  decodeFields fuel "00-4AAAAA" = None
  /\ PixCodec.decode fuel "00-46304340B" = None
  /\ scan_body (decodeFields fuel) "00-4AAAAA" (JS.Int 0)
     = Some (Field "00" None "-4" (Str ""), JS.Int 0)
  /\ decodeFields (3 + fuel) "00991" = Some [Field "00" None "99" (Str "1")].
Proof.
  split; [|split; [|split; [reflexivity|]]].
  - destruct fuel as [|fuel]; [reflexivity|].
    rewrite decodeFields_S, scan_stuck; [reflexivity|reflexivity|].
    intros rec. eexists. reflexivity.
  - unfold PixCodec.decode.
    change (negb (JS.truthy "00-46304340B")) with false. cbv iota.
    replace (negb _) with false by (vm_compute; reflexivity).
    destruct fuel as [|fuel]; [reflexivity|].
    rewrite decodeFields_S, scan_stuck; [reflexivity|reflexivity|].
    intros rec. eexists. reflexivity.
  - apply (decodeFields_mono 3); [lia|reflexivity].
Qed.

End ScanExit.

(** ** Regular expressions: the matcher decides the language *)

Section Regex.
Import JS.

Lemma sapp_eq_nil (a b : string) : a +:+ b = "" -> a = "" /\ b = "".
Proof.
  destruct a; [intros H; split; [reflexivity|exact H]|].
  rewrite sapp_cons. discriminate.
Qed.

Lemma lang_class_inv p s :
  lang (Class p) s <-> exists c, s = String c "" /\ p c = true.
Proof.
  split.
  - intros H. inversion H; subst. eauto.
  - intros (c & -> & Hp). constructor. exact Hp.
Qed.

Lemma lang_seq_inv r1 r2 s :
  lang (Seq r1 r2) s <-> exists s1 s2, s = s1 +:+ s2 /\ lang r1 s1 /\ lang r2 s2.
Proof.
  split.
  - intros H. inversion H; subst. eauto.
  - intros (s1 & s2 & -> & H1 & H2). constructor; assumption.
Qed.

Lemma lang_eps_inv s : lang Eps s <-> s = "".
Proof.
  split; [intros H; inversion H; reflexivity|intros ->; constructor].
Qed.

Lemma lang_alt_inv r1 r2 s : lang (Alt r1 r2) s <-> lang r1 s \/ lang r2 s.
Proof.
  split.
  - intros H. inversion H; subst; auto.
  - intros [H|H]; [apply lang_alt_l|apply lang_alt_r]; exact H.
Qed.

Lemma lang_empty_inv s : lang Empty s <-> False.
Proof. split; [intros H; inversion H|intros []]. Qed.

Lemma nullable_spec (r : regex) : nullable r = true <-> lang r "".
Proof.
  induction r as [| |p|r1 IH1 r2 IH2|r1 IH1 r2 IH2|r IH]; cbn [nullable].
  - rewrite lang_empty_inv. split; [discriminate|intros []].
  - split; [constructor|reflexivity].
  - rewrite lang_class_inv. split; [discriminate|].
    intros (c & H & _). discriminate.
  - rewrite andb_true_iff, IH1, IH2, lang_seq_inv. split.
    + intros [H1 H2]. exists "", "". auto.
    + intros (s1 & s2 & Heq & H1 & H2). symmetry in Heq.
      apply sapp_eq_nil in Heq. destruct Heq as [-> ->]. auto.
  - rewrite orb_true_iff, IH1, IH2, lang_alt_inv. reflexivity.
  - split; [constructor|reflexivity].
Qed.

(** A non-empty word of [r*] starts with a non-empty word of [r]. *)
Lemma star_cons_inv (r : regex) (w : string) :
  lang (Star r) w ->
  forall c s, w = String c s ->
  exists s1 s2,
    s = s1 +:+ s2 /\ lang r (String c s1) /\ lang (Star r) s2.
Proof.
  intros H. remember (Star r) as r' eqn:Hr.
  induction H as [| | | | | r0 | r0 s1 s2 H1 _ H2 IH2]; try discriminate.
  injection Hr as ->. intros c s Hw.
  destruct s1 as [|c1 s1].
  - apply (IH2 eq_refl c s). exact Hw.
  - rewrite sapp_cons in Hw. injection Hw as -> <-.
    exists s1, s2. auto.
Qed.

Lemma deriv_spec (r : regex) :
  forall c s, lang (deriv c r) s <-> lang r (String c s).
Proof.
  induction r as [| |p|r1 IH1 r2 IH2|r1 IH1 r2 IH2|r IH]; intros c s;
    cbn [deriv].
  - rewrite !lang_empty_inv. reflexivity.
  - rewrite lang_empty_inv, lang_eps_inv. split; [intros []|discriminate].
  - rewrite lang_class_inv. destruct (p c) eqn:Hp.
    + rewrite lang_eps_inv. split.
      * intros ->. exists c. auto.
      * intros (c' & H & _). injection H as _ ->. reflexivity.
    + rewrite lang_empty_inv. split; [intros []|].
      intros (c' & H & Hp'). injection H as -> _. congruence.
  - assert (Hseq : lang (Seq (deriv c r1) r2) s
                   <-> exists s1 s2, s = s1 +:+ s2
                         /\ lang r1 (String c s1) /\ lang r2 s2).
    { rewrite lang_seq_inv. split; intros (s1 & s2 & Heq & H1 & H2);
        exists s1, s2; (split; [exact Heq|split; [apply IH1, H1|exact H2]]). }
    assert (Hinv : lang (Seq r1 r2) (String c s)
                   <-> (exists s1 s2, s = s1 +:+ s2
                          /\ lang r1 (String c s1) /\ lang r2 s2)
                       \/ (lang r1 "" /\ lang r2 (String c s))).
    { rewrite lang_seq_inv. split.
      - intros (s1 & s2 & Heq & H1 & H2). destruct s1 as [|c1 s1].
        + right. rewrite sapp_nil_l in Heq. subst s2. auto.
        + rewrite sapp_cons in Heq. injection Heq as -> ->.
          left. exists s1, s2. auto.
      - intros [(s1 & s2 & -> & H1 & H2)|[H1 H2]].
        + exists (String c s1), s2. auto.
        + exists "", (String c s). auto. }
    rewrite Hinv. destruct (nullable r1) eqn:Hn.
    + rewrite lang_alt_inv, Hseq, IH2. apply nullable_spec in Hn. tauto.
    + rewrite Hseq. split; [auto|]. intros [H|[H _]]; [exact H|].
      apply nullable_spec in H. congruence.
  - rewrite !lang_alt_inv, IH1, IH2. reflexivity.
  - rewrite lang_seq_inv. split.
    + intros (s1 & s2 & -> & H1 & H2). apply IH in H1.
      exact (lang_star_cons _ _ _ H1 H2).
    + intros H.
      destruct (star_cons_inv _ _ H c s eq_refl) as (s1 & s2 & -> & H1 & H2).
      exists s1, s2. split; [reflexivity|]. split; [apply IH, H1|exact H2].
Qed.

Lemma matches_spec (s : string) :
  forall r, matches r s = true <-> lang r s.
Proof.
  induction s as [|c s IH]; intros r; cbn [matches].
  - apply nullable_spec.
  - rewrite IH. apply deriv_spec.
Qed.

(** *** The languages of the pattern shapes *)

Lemma lang_chr_inv c s : lang (Chr c) s <-> s = String c "".
Proof.
  unfold Chr. rewrite lang_class_inv. split.
  - intros (c' & -> & H). apply Ascii.eqb_eq in H. congruence.
  - intros ->. exists c. split; [reflexivity|apply Ascii.eqb_refl].
Qed.

Lemma all_chars_app p (a b : string) :
  all_chars p (a +:+ b)
  = all_chars p a && all_chars p b.
Proof.
  induction a as [|x a IH]; [reflexivity|].
  rewrite sapp_cons. cbn [all_chars]. rewrite IH.
  apply andb_assoc.
Qed.

Lemma lang_repeat p n :
  forall s, lang (Repeat n (Class p)) s
            <-> String.length s = n /\ all_chars p s = true.
Proof.
  induction n as [|n IH]; intros s; cbn [Repeat].
  - rewrite lang_eps_inv. split.
    + intros ->. split; reflexivity.
    + intros [H _]. apply length_zero, H.
  - rewrite lang_seq_inv. split.
    + intros (s1 & s2 & -> & H1 & H2).
      apply lang_class_inv in H1. destruct H1 as (c & -> & Hp).
      apply IH in H2. destruct H2 as [Hl Ha].
      rewrite sapp_cons, sapp_nil_l. cbn [String.length all_chars].
      rewrite Hl, Hp, Ha. split; reflexivity.
    + intros [Hl Ha]. destruct s as [|c s]; [discriminate|].
      cbn [String.length all_chars] in *.
      apply andb_prop in Ha. destruct Ha as [Hp Ha].
      exists (String c ""), s. split; [reflexivity|].
      split; [constructor; exact Hp|apply IH]. split; [lia|exact Ha].
Qed.

Lemma lang_star_class p s :
  lang (Star (Class p)) s <-> all_chars p s = true.
Proof.
  split.
  - intros H. remember (Star (Class p)) as r eqn:Hr.
    induction H as [| | | | | r0 | r0 s1 s2 H1 _ H2 IH2];
      try discriminate; injection Hr as ->; [reflexivity|].
    apply lang_class_inv in H1. destruct H1 as (c & -> & Hp).
    rewrite sapp_cons, sapp_nil_l. cbn [all_chars].
    rewrite Hp, (IH2 eq_refl). reflexivity.
  - induction s as [|c s IH]; [constructor|].
    cbn [all_chars]. intros H. apply andb_prop in H.
    destruct H as [Hp Ha].
    apply (lang_star_cons _ (String c "") s); [constructor; exact Hp|auto].
Qed.

Lemma lang_plus_class p s :
  lang (Plus (Class p)) s <-> s <> "" /\ all_chars p s = true.
Proof.
  unfold Plus. rewrite lang_seq_inv. split.
  - intros (s1 & s2 & -> & H1 & H2).
    apply lang_class_inv in H1. destruct H1 as (c & -> & Hp).
    apply lang_star_class in H2.
    rewrite sapp_cons, sapp_nil_l. cbn [all_chars].
    rewrite Hp, H2. split; [discriminate|reflexivity].
  - intros [Hne Ha]. destruct s as [|c s]; [congruence|].
    cbn [all_chars] in Ha. apply andb_prop in Ha.
    destruct Ha as [Hp Ha].
    exists (String c ""), s. split; [reflexivity|].
    split; [constructor; exact Hp|apply lang_star_class, Ha].
Qed.

Lemma lang_range_1 p n s :
  lang (Range n 1 (Class p)) s
  <-> (String.length s = n \/ String.length s = S n)
      /\ all_chars p s = true.
Proof.
  unfold Range. cbn [RepeatUpTo].
  rewrite lang_seq_inv. split.
  - intros (s1 & s2 & -> & H1 & H2).
    apply lang_repeat in H1. destruct H1 as [Hl Ha].
    apply lang_alt_inv in H2. destruct H2 as [H2|H2].
    + apply lang_eps_inv in H2. subst s2. rewrite sapp_nil_r.
      split; [left; exact Hl|exact Ha].
    + apply lang_seq_inv in H2. destruct H2 as (t1 & t2 & -> & Ht1 & Ht2).
      apply lang_eps_inv in Ht2. subst t2. rewrite sapp_nil_r.
      apply lang_class_inv in Ht1. destruct Ht1 as (c & -> & Hp).
      split.
      * right. rewrite length_sapp, Hl. cbn. lia.
      * rewrite all_chars_app, Ha. cbn [all_chars].
        rewrite Hp. reflexivity.
  - intros [[Hl|Hl] Ha].
    + exists s, "". rewrite sapp_nil_r. split; [reflexivity|].
      split; [apply lang_repeat; auto|apply lang_alt_l; constructor].
    + (* split off the last character *)
      revert s Hl Ha. induction n as [|n IH]; intros s Hl Ha.
      * destruct s as [|c [|? ?]]; try discriminate.
        cbn [all_chars] in Ha. apply andb_prop in Ha.
        exists "", (String c ""). split; [reflexivity|].
        split; [constructor|].
        apply lang_alt_r.
        apply (lang_seq _ _ (String c "") ""); [|constructor].
        constructor. apply Ha.
      * destruct s as [|c s]; [discriminate|].
        cbn [String.length all_chars] in *.
        apply andb_prop in Ha. destruct Ha as [Hc Ha].
        destruct (IH s ltac:(lia) Ha) as (s1 & s2 & -> & H1 & H2).
        exists (String c s1), s2. split; [reflexivity|].
        split; [|exact H2]. cbn [Repeat].
        apply (lang_seq _ _ (String c "") s1); [constructor; exact Hc|].
        exact H1.
Qed.

End Regex.

(** ** validateKey *)

Section ValidateKey.
Import JS PixCodec.

Lemma all_ascii_spec (P : ascii -> bool) :
  all_ascii P = true -> forall c, P c = true.
Proof.
  intros H c. unfold all_ascii in H.
  pose proof (all_bits_spec 8 _ H (Z.of_N (N_of_ascii c))) as Hc.
  cbv beta in Hc. rewrite N2Z.id, ascii_N_embedding in Hc.
  apply Hc. pose proof (N_ascii_bounded c). cbn. lia.
Qed.

Lemma all_chars_ext (p q : ascii -> bool) (s : string) :
  (forall c, p c = q c) -> all_chars p s = all_chars q s.
Proof.
  intros H. induction s as [|c s IH]; [reflexivity|].
  cbn [all_chars]. rewrite H, IH. reflexivity.
Qed.

Lemma remove_all_D (key : string) : remove_all class_D key = keep_digits key.
Proof.
  induction key as [|c key IH]; [reflexivity|].
  cbn [remove_all keep_digits].
  change (class_D c) with (negb (is_digit c)).
  destruct (is_digit c); cbn [negb]; rewrite IH; reflexivity.
Qed.

Lemma keep_digits_digits (key : string) : all_digits (keep_digits key).
Proof.
  unfold all_digits. induction key as [|c key IH]; [reflexivity|].
  cbn [keep_digits]. destruct (is_digit c) eqn:Hd; [|exact IH].
  cbn [all_chars]. rewrite Hd, IH. reflexivity.
Qed.

Lemma digits_count (n : nat) (key : string) :
  matches (Repeat n (Class class_d)) (keep_digits key) = true
  <-> String.length (keep_digits key) = n.
Proof.
  rewrite matches_spec, lang_repeat. split; [intros [H _]; exact H|].
  intros H. split; [exact H|apply keep_digits_digits].
Qed.

Lemma email_correct (key : string) :
  matches re_email key = true <-> email_shape key.
Proof.
  rewrite matches_spec. unfold re_email, email_shape, plain.
  assert (Hc : forall s,
    lang (Plus (Class class_email)) s
    <-> s <> ""
        /\ all_chars
             (fun c => negb (is_white c) && negb (Ascii.eqb c "@")) s = true).
  { intros s. rewrite lang_plus_class.
    rewrite (all_chars_ext class_email
               (fun c => negb (is_white c) && negb (Ascii.eqb c "@"))).
    - reflexivity.
    - intros c. unfold class_email, class_s. apply negb_orb. }
  split.
  - intros H.
    apply lang_seq_inv in H. destruct H as (l & r1 & -> & Hl & H).
    apply lang_seq_inv in H. destruct H as (a & r2 & -> & Ha & H).
    apply lang_seq_inv in H. destruct H as (d & r3 & -> & Hd & H).
    apply lang_seq_inv in H. destruct H as (b & t & -> & Hb & Ht).
    apply lang_chr_inv in Ha, Hb. subst a b.
    apply Hc in Hl, Hd, Ht.
    exists l, d, t. tauto.
  - intros (l & d & t & -> & Hl & Hd & Ht & Pl & Pd & Pt).
    apply lang_seq; [apply Hc; auto|].
    apply (lang_seq _ _ "@"); [apply lang_chr_inv; reflexivity|].
    apply lang_seq; [apply Hc; auto|].
    apply (lang_seq _ _ "."); [apply lang_chr_inv; reflexivity|].
    apply Hc; auto.
Qed.

Lemma phone_correct (key : string) :
  matches re_phone key = true <-> phone_shape key.
Proof.
  rewrite matches_spec. unfold re_phone, phone_shape, all_digits. split.
  - intros H.
    apply lang_seq_inv in H. destruct H as (a & r1 & -> & Ha & H).
    apply lang_seq_inv in H. destruct H as (b & r2 & -> & Hb & H).
    apply lang_seq_inv in H. destruct H as (c & ds & -> & Hc & H).
    apply lang_chr_inv in Ha, Hb, Hc. subst a b c.
    apply lang_range_1 in H. destruct H as [Hl Hd].
    exists ds. split; [reflexivity|]. split; [exact Hd|exact Hl].
  - intros (ds & -> & Hd & Hl).
    apply (lang_seq _ _ "+"); [apply lang_chr_inv; reflexivity|].
    apply (lang_seq _ _ "5"); [apply lang_chr_inv; reflexivity|].
    apply (lang_seq _ _ "5"); [apply lang_chr_inv; reflexivity|].
    apply lang_range_1. split; [exact Hl|exact Hd].
Qed.

Lemma class_hex_checked :
  all_ascii (fun c => Bool.eqb (class_hex c) (is_hex c)) = true.
Proof. vm_compute. reflexivity. Qed.

Lemma dash_checked :
  all_ascii (fun c => Bool.eqb (ignoreCase (Ascii.eqb "-") c)
                               (Ascii.eqb "-" c)) = true.
Proof. vm_compute. reflexivity. Qed.

Lemma lang_hex_group (n : nat) (s : string) :
  lang (Repeat n (Class class_hex)) s <-> hex_group n s.
Proof.
  rewrite lang_repeat. unfold hex_group.
  rewrite (all_chars_ext class_hex is_hex); [reflexivity|].
  intros c. apply Bool.eqb_prop.
  exact (all_ascii_spec _ class_hex_checked c).
Qed.

Lemma lang_dash (s : string) : lang dash s <-> s = "-".
Proof.
  unfold dash. rewrite lang_class_inv. split.
  - intros (c & -> & H).
    rewrite (Bool.eqb_prop _ _ (all_ascii_spec _ dash_checked c)) in H.
    apply Ascii.eqb_eq in H. subst c. reflexivity.
  - intros ->. exists "-"%char. split; reflexivity.
Qed.

Lemma uuid_correct (key : string) :
  matches re_uuid key = true <-> uuid_shape key.
Proof.
  rewrite matches_spec. unfold re_uuid, uuid_shape. split.
  - intros H.
    apply lang_seq_inv in H. destruct H as (a & r1 & -> & Ha & H).
    apply lang_seq_inv in H. destruct H as (d1 & r2 & -> & H1 & H).
    apply lang_seq_inv in H. destruct H as (b & r3 & -> & Hb & H).
    apply lang_seq_inv in H. destruct H as (d2 & r4 & -> & H2 & H).
    apply lang_seq_inv in H. destruct H as (c & r5 & -> & Hc & H).
    apply lang_seq_inv in H. destruct H as (d3 & r6 & -> & H3 & H).
    apply lang_seq_inv in H. destruct H as (d & r7 & -> & Hd & H).
    apply lang_seq_inv in H. destruct H as (d4 & e & -> & H4 & He).
    apply lang_dash in H1, H2, H3, H4. subst d1 d2 d3 d4.
    apply lang_hex_group in Ha, Hb, Hc, Hd, He.
    exists a, b, c, d, e. tauto.
  - intros (a & b & c & d & e & -> & Ha & Hb & Hc & Hd & He).
    apply lang_hex_group in Ha, Hb, Hc, Hd, He.
    apply lang_seq; [exact Ha|].
    apply (lang_seq _ _ "-"); [apply lang_dash; reflexivity|].
    apply lang_seq; [exact Hb|].
    apply (lang_seq _ _ "-"); [apply lang_dash; reflexivity|].
    apply lang_seq; [exact Hc|].
    apply (lang_seq _ _ "-"); [apply lang_dash; reflexivity|].
    apply lang_seq; [exact Hd|].
    apply (lang_seq _ _ "-"); [apply lang_dash; reflexivity|].
    exact He.
Qed.

Lemma not_true_false (b : bool) : b <> true -> b = false.
Proof. destruct b; congruence. Qed.

Lemma validateKey_cascade (key : string) :
  key <> "" ->
  validateKey key
  = if matches re_cpf (keep_digits key) then Validation true (Some "CPF") None
    else if matches re_cnpj (keep_digits key)
         then Validation true (Some "CNPJ") None
    else if matches re_email key then Validation true (Some "EMAIL") None
    else if matches re_phone key then Validation true (Some "PHONE") None
    else if matches re_uuid key then Validation true (Some "RANDOM") None
    else Validation false None (Some "Invalid PIX key format").
Proof.
  intros Hne. unfold validateKey. apply truthy_true in Hne.
  rewrite Hne, remove_all_D. reflexivity.
Qed.

Lemma key_class_total (key : string) : exists t, key_class key t.
Proof.
  destruct (Nat.eq_dec (String.length (keep_digits key)) 11%nat)
    as [H11|N11];
    [exists (Some "CPF"); apply key_cpf, H11|].
  destruct (Nat.eq_dec (String.length (keep_digits key)) 14%nat)
    as [H14|N14];
    [exists (Some "CNPJ"); apply key_cnpj, H14|].
  destruct (matches re_email key) eqn:Em.
  { exists (Some "EMAIL"). apply key_email; try assumption.
    apply email_correct, Em. }
  assert (Nem : ~ email_shape key)
    by (intros E; apply email_correct in E; congruence).
  destruct (matches re_phone key) eqn:Ph.
  { exists (Some "PHONE"). apply key_phone; try assumption.
    apply phone_correct, Ph. }
  assert (Nph : ~ phone_shape key)
    by (intros E; apply phone_correct in E; congruence).
  destruct (matches re_uuid key) eqn:Uu.
  { exists (Some "RANDOM"). apply key_random; try assumption.
    apply uuid_correct, Uu. }
  assert (Nuu : ~ uuid_shape key)
    by (intros E; apply uuid_correct in E; congruence).
  exists None. apply key_invalid; assumption.
Qed.

Lemma key_class_answers (key : string) (t : option string) :
  key_class key t -> answers key t.
Proof.
  intros H.
  assert (Hcpf := digits_count 11 key). fold re_cpf in Hcpf.
  assert (Hcnpj := digits_count 14 key). fold re_cnpj in Hcnpj.
  assert (Hem := email_correct key).
  assert (Hph := phone_correct key).
  assert (Huu := uuid_correct key).
  destruct key as [|c0 key0].
  - (* the empty key *)
    destruct H as [H|H|_ _ H|_ _ _ H|_ _ _ _ H|_ _ _ _ _].
    + apply Hcpf in H. discriminate H.
    + apply Hcnpj in H. discriminate H.
    + apply Hem in H. discriminate H.
    + apply Hph in H. discriminate H.
    + apply Huu in H. discriminate H.
    + cbn. split; [reflexivity|]. split; [reflexivity|]. eauto.
  - set (key := String c0 key0) in *.
    assert (Hne : key <> "") by discriminate.
    unfold answers.
    destruct H as [H|H|N1 N2 H|N1 N2 N3 H|N1 N2 N3 N4 H|N1 N2 N3 N4 N5];
      rewrite (validateKey_cascade key Hne).
    + rewrite (proj2 Hcpf H). reflexivity.
    + rewrite (proj2 Hcnpj H).
      rewrite (not_true_false (matches re_cpf (keep_digits key)));
        [reflexivity|].
      intros E. apply Hcpf in E. congruence.
    + rewrite (not_true_false _ (fun E => N1 (proj1 Hcpf E))).
      rewrite (not_true_false _ (fun E => N2 (proj1 Hcnpj E))).
      rewrite (proj2 Hem H). reflexivity.
    + rewrite (not_true_false _ (fun E => N1 (proj1 Hcpf E))).
      rewrite (not_true_false _ (fun E => N2 (proj1 Hcnpj E))).
      rewrite (not_true_false _ (fun E => N3 (proj1 Hem E))).
      rewrite (proj2 Hph H). reflexivity.
    + rewrite (not_true_false _ (fun E => N1 (proj1 Hcpf E))).
      rewrite (not_true_false _ (fun E => N2 (proj1 Hcnpj E))).
      rewrite (not_true_false _ (fun E => N3 (proj1 Hem E))).
      rewrite (not_true_false _ (fun E => N4 (proj1 Hph E))).
      rewrite (proj2 Huu H). reflexivity.
    + rewrite (not_true_false _ (fun E => N1 (proj1 Hcpf E))).
      rewrite (not_true_false _ (fun E => N2 (proj1 Hcnpj E))).
      rewrite (not_true_false _ (fun E => N3 (proj1 Hem E))).
      rewrite (not_true_false _ (fun E => N4 (proj1 Hph E))).
      rewrite (not_true_false _ (fun E => N5 (proj1 Huu E))).
      cbn. split; [reflexivity|]. split; [reflexivity|]. eauto.
Qed.

(** C8.  [validateKey] classifies in the fixed order of the specification:
    a key whose digits, all other characters stripped, number exactly 11 is
    a CPF, exactly 14 a CNPJ, whatever else the key matches; otherwise the
    original key is tried as an e-mail address, then as "+55" and 10 or 11
    digits, then as a UUID of hexadecimal groups 8-4-4-4-12 in either case;
    a key of no class is answered with [isValid: false], [type: null] and an
    error.  Every key falls under one of these cases. *)
Theorem validateKey_classifies (key : string) (t : option string) :
  (key_class key t -> answers key t)
  /\ (exists t', key_class key t' /\ answers key t')
  /\ (String.length (keep_digits key) = 11%nat ->
      validateKey key = Validation true (Some "CPF") None)
  /\ (String.length (keep_digits key) = 14%nat ->
      validateKey key = Validation true (Some "CNPJ") None).
Proof.
  split; [apply key_class_answers|]. split; [|split].
  - destruct (key_class_total key) as [t' H]. exists t'.
    split; [exact H|apply key_class_answers, H].
  - intros H. exact (key_class_answers key _ (key_cpf key H)).
  - intros H. exact (key_class_answers key _ (key_cnpj key H)).
Qed.

Lemma validateKey_classifies_witness :
  key_class "+5511987654321" (Some "PHONE")
  /\ validateKey "+5511987654321" = Validation true (Some "PHONE") None
  /\ String.length (keep_digits "529.982.247-25") = 11%nat
  /\ validateKey "529.982.247-25" = Validation true (Some "CPF") None
  /\ String.length (keep_digits "12.345.678/0001-95") = 14%nat
  /\ validateKey "12.345.678/0001-95" = Validation true (Some "CNPJ") None.
Proof.
  assert (H : key_class "+5511987654321" (Some "PHONE")).
  { apply key_phone.
    - vm_compute. lia.
    - vm_compute. lia.
    - intros E. apply email_correct in E. vm_compute in E. discriminate E.
    - exists "11987654321". split; [reflexivity|].
      split; [reflexivity|right; reflexivity]. }
  split; [exact H|].
  split;
    [exact (proj1 (validateKey_classifies "+5511987654321" (Some "PHONE")) H)|].
  split; [reflexivity|].
  split;
    [exact (proj1 (proj2 (proj2 (validateKey_classifies "529.982.247-25"
                                   None))) eq_refl)|].
  split; [reflexivity|].
  exact (proj2 (proj2 (proj2 (validateKey_classifies "12.345.678/0001-95"
                                None))) eq_refl).
Defined.

End ValidateKey.

(** ** createPayment *)

Section CreatePayment.
Import JS PixCodec.

(** The document of a successful call, whatever the optional parameters. *)
Lemma createPayment_fields (p : params) (k n c : string) :
  key p = Some k -> merchantName p = Some n -> merchantCity p = Some c ->
  truthy k = true -> truthy n = true -> truthy c = true ->
  createPayment p
  = inr (pixData
           (head_fields k
            ++ (if provided (amount p)
                then [amount_field (default "" (amount p))] else [])
            ++ tail_fields n c
            ++ additional_fields (transactionId p) (description p))).
Proof.
  intros Hk Hn Hc Tk Tn Tc. unfold createPayment.
  rewrite Hk, Hn, Hc, Tk, Tn, Tc. cbn [negb orb].
  unfold additional_fields, additional_subfields.
  destruct (amount p) as [a|]; [destruct (truthy a) eqn:Ta|];
    cbn [provided default]; rewrite ?Ta;
    (destruct (transactionId p) as [t|]; [destruct (truthy t) eqn:Tt|];
     cbn [provided default]; rewrite ?Tt;
     (destruct (description p) as [d|]; [destruct (truthy d) eqn:Td|];
      cbn [provided default]; rewrite ?Td; reflexivity)).
Qed.

Lemma createPayment_success (p : params) doc :
  createPayment p = inr doc ->
  exists k n c,
    key p = Some k /\ merchantName p = Some n /\ merchantCity p = Some c
    /\ truthy k = true /\ truthy n = true /\ truthy c = true.
Proof.
  unfold createPayment.
  destruct (key p) as [k|]; [|discriminate].
  destruct (merchantName p) as [n|]; [|discriminate].
  destruct (merchantCity p) as [c|]; [|discriminate].
  destruct (truthy k) eqn:Tk, (truthy n) eqn:Tn, (truthy c) eqn:Tc;
    cbn [negb orb]; try discriminate.
  intros _. exists k, n, c. repeat split; assumption || reflexivity.
Qed.

(** *** Printing digits *)

Lemma digit_char_digit (d : N) :
  (d < 10)%N -> is_digit (digit_char d) = true.
Proof.
  intros Hd. unfold digit_char. rewrite (proj2 (N.ltb_lt d 10) Hd).
  assert (Hc : all_bits 4 (fun z =>
             if z <? 10 then is_digit (ascii_of_N (48 + Z.to_N z)) else true)
           = true) by (vm_compute; reflexivity).
  pose proof (all_bits_spec 4 _ Hc (Z.of_N d) ltac:(cbn; lia)) as H.
  cbv beta in H. rewrite N2Z.id in H.
  destruct (Z.ltb_spec (Z.of_N d) 10); [exact H|lia].
Qed.

Lemma digits_all_digits (fuel : nat) :
  forall n acc,
    all_chars is_digit acc = true ->
    all_chars is_digit (digits fuel 10 n acc) = true.
Proof.
  induction fuel as [|fuel IH]; intros n acc Hacc; [exact Hacc|].
  cbn [digits].
  assert (Hd : all_chars is_digit
                 (String (digit_char (n mod 10)) acc) = true).
  { cbn [all_chars]. rewrite digit_char_digit, Hacc; [reflexivity|].
    apply N.mod_lt. discriminate. }
  destruct (n <? 10)%N; [exact Hd|]. apply IH, Hd.
Qed.

Lemma all_chars_replicate p n c :
  p c = true -> all_chars p (replicate n c) = true.
Proof.
  intros Hc. induction n as [|n IH]; [reflexivity|].
  cbn [replicate all_chars]. rewrite Hc, IH. reflexivity.
Qed.

Lemma length_replicate n c : String.length (replicate n c) = n.
Proof.
  induction n as [|n IH]; [reflexivity|].
  cbn [replicate String.length]. rewrite IH. reflexivity.
Qed.

Lemma all_chars_take p n :
  forall s, all_chars p s = true ->
            all_chars p (take n s) = true.
Proof.
  induction n as [|n IH]; intros [|c s] H; try reflexivity.
  cbn [take all_chars] in *. apply andb_prop in H.
  destruct H as [Hc Hs]. rewrite Hc, (IH _ Hs). reflexivity.
Qed.

Lemma all_chars_drop p n :
  forall s, all_chars p s = true ->
            all_chars p (drop n s) = true.
Proof.
  induction n as [|n IH]; intros [|c s] H; try reflexivity; try exact H.
  cbn [drop all_chars] in *. apply andb_prop in H.
  destruct H as [_ Hs]. apply IH, Hs.
Qed.

Lemma length_drop n :
  forall s, String.length (drop n s) = (String.length s - n)%nat.
Proof.
  induction n as [|n IH]; intros [|c s]; try reflexivity.
  cbn [drop String.length]. rewrite IH. reflexivity.
Qed.

Lemma take_drop n : forall s, take n s +:+ drop n s = s.
Proof.
  induction n as [|n IH]; intros [|c s]; try reflexivity.
  cbn [take drop]. rewrite sapp_cons, IH. reflexivity.
Qed.

(** The digits path of [toFixed(2)]. *)
Lemma fixed_digits_shape (n : Z) :
  let ds := padStart (N_toString 10 (Z.to_N n)) 3 "0" in
  let k := String.length ds in
  take (k - 2) ds <> ""
  /\ all_digits (take (k - 2) ds)
  /\ String.length (drop (k - 2) ds) = 2%nat
  /\ all_digits (drop (k - 2) ds).
Proof.
  intros ds k.
  assert (Hd : all_chars is_digit ds = true).
  { unfold ds, padStart. rewrite all_chars_app.
    rewrite all_chars_replicate by reflexivity.
    unfold N_toString. rewrite digits_all_digits; reflexivity. }
  assert (Hk : (3 <= k)%nat).
  { unfold k, ds, padStart. rewrite length_sapp, length_replicate. lia. }
  split; [|split; [|split]].
  - intros H. apply (f_equal String.length) in H.
    rewrite length_take in H. cbn [String.length] in H. fold k in H. lia.
  - apply all_chars_take, Hd.
  - rewrite length_drop. fold k. lia.
  - apply all_chars_drop, Hd.
Qed.

Lemma toFixed2_fixed (x : double) : below_1e21 x -> is_fixed2 (toFixed2 x).
Proof.
  destruct x as [|neg|neg m e]; [intros []|intros []|].
  cbn [below_1e21]. intros Hb. unfold toFixed2. rewrite Hb.
  set (n := if 0 <=? e then m * 2 ^ e * 100
            else (200 * m + 2 ^ (- e)) / 2 ^ (1 - e)).
  destruct (fixed_digits_shape n) as (H1 & H2 & H3 & H4).
  cbv zeta in H1, H2, H3, H4.
  eexists _, _, _. split; [reflexivity|].
  split; [destruct (neg && (0 <? m)); auto|]. auto.
Qed.

Lemma NaN_not_fixed2 : ~ is_fixed2 "NaN".
Proof.
  intros (sign & int & frac & H & _ & Hint & _ & Hfrac & _).
  apply (f_equal String.length) in H.
  rewrite !length_sapp, Hfrac in H. cbn [String.length] in H.
  destruct int; [congruence|]. cbn [String.length] in H. lia.
Qed.

Lemma pixData_inj (a b : list field) : pixData a = pixData b -> a = b.
Proof.
  unfold pixData. intros H.
  apply (f_equal (fun m => m !! "value")) in H.
  rewrite !lookup_singleton_eq in H. congruence.
Qed.




End CreatePayment.

(** ** The round trip *)

Section RoundTrip.
Import JS PixCodec.

(** *** encode writes tuples *)

Lemma fold_left_join {A} (p : A -> bool) (g : A -> string) (l : list A) :
  forall acc,
    fold_left (fun acc x => if p x then acc +:+ g x else acc) l acc
    = acc +:+ join (map g (List.filter p l)).
Proof.
  induction l as [|x l IH]; intros acc.
  - cbn. rewrite sapp_nil_r. reflexivity.
  - cbn [fold_left List.filter]. rewrite IH.
    destruct (p x); [|reflexivity].
    cbn [map join fold_right]. rewrite sapp_assoc. reflexivity.
Qed.

Lemma wire_map {A} (i v : A -> string) (l : list A) :
  wire (map (fun x => (i x, v x)) l) = join (map (fun x => tlv (i x) (v x)) l).
Proof. unfold wire. rewrite map_map. reflexivity. Qed.

Lemma encodeField_Str (id v : string) : encodeField id (Str v) = tlv id v.
Proof. reflexivity. Qed.

Lemma encodeField_Arr (id : string) (subFields : list field) :
  encodeField id (Arr subFields) = tlv id (wire (sub_items subFields)).
Proof.
  unfold sub_items. rewrite wire_map.
  rewrite <- (sapp_nil_l (join _)).
  rewrite <- (fold_left_join (fun sf => truthy (F.id sf))
                (fun sf => tlv (F.id sf) (sub_value sf)) subFields "").
  reflexivity.
Qed.

Lemma encodeField_wire (f : field) :
  encodeField (F.id f) (F.value f) = tlv (F.id f) (wire_value f).
Proof.
  unfold wire_value. destruct (F.value f).
  - apply encodeField_Str.
  - apply encodeField_Arr.
Qed.

Lemma encode_wire (fields : list field) :
  encode (pixData fields)
  = inr ((wire (top_items fields) +:+ "6304")
         +:+ calculateCRC16 (wire (top_items fields) +:+ "6304")).
Proof.
  unfold encode, pixData. rewrite lookup_singleton_eq.
  rewrite (fold_left_join (fun f => truthy (F.id f))
             (fun f => encodeField (F.id f) (F.value f))).
  rewrite sapp_nil_l.
  replace (join _) with (wire (top_items fields)); [reflexivity|].
  unfold top_items. rewrite wire_map.
  f_equal. apply map_ext. intros f. symmetry. apply encodeField_wire.
Qed.

Lemma filter_all {A} (p : A -> bool) (l : list A) :
  Forall (fun x => p x = true) l -> List.filter p l = l.
Proof.
  induction 1 as [|x l Hx _ IH]; [reflexivity|].
  cbn [List.filter]. rewrite Hx, IH. reflexivity.
Qed.

Lemma length_2_truthy (s : string) : String.length s = 2%nat -> truthy s = true.
Proof. destruct s; [discriminate|reflexivity]. Qed.

Lemma sub_items_all (subFields : list field) :
  Forall scalar_sub subFields ->
  sub_items subFields = map (fun sf => (F.id sf, sub_value sf)) subFields.
Proof.
  intros H. unfold sub_items. rewrite filter_all; [reflexivity|].
  eapply List.Forall_impl; [|exact H].
  intros sf (Hid & _). apply length_2_truthy, Hid.
Qed.

Lemma top_items_all (fields : list field) :
  Forall well_formed fields ->
  top_items fields = map (fun f => (F.id f, wire_value f)) fields.
Proof.
  intros H. unfold top_items. rewrite !filter_all; [reflexivity| |].
  - eapply List.Forall_impl; [|exact H].
    intros f (_ & Hid & _). apply negb_true_iff, String.eqb_neq, Hid.
  - rewrite filter_all.
    + eapply List.Forall_impl; [|exact H].
      intros f (Hid & _). apply length_2_truthy, Hid.
    + eapply List.Forall_impl; [|exact H].
      intros f (_ & Hid & _). apply negb_true_iff, String.eqb_neq, Hid.
Qed.

(** *** the scan reads them back *)

Lemma sub_items_ok rec (subFields : list field) :
  Forall scalar_sub subFields ->
  Forall2 (item_ok rec)
    (map (fun sf => (F.id sf, sub_value sf)) subFields)
    (map flat_sub subFields).
Proof.
  induction 1 as [|sf l (Hid & Hinc & Hlen & _) _ IH]; [constructor|].
  cbn [map]. constructor; [|exact IH].
  split; [exact Hid|]. split; [exact Hlen|].
  cbn [fst snd]. unfold scanned. rewrite Hinc. reflexivity.
Qed.

Lemma decode_subfields fuel (subFields : list field) :
  Forall scalar_sub subFields ->
  (List.length subFields < fuel)%nat ->
  decodeFields (S fuel) (wire (sub_items subFields))
  = Some (map flat_sub subFields).
Proof.
  intros H Hfuel. rewrite sub_items_all by assumption.
  apply decodeFields_items.
  - apply sub_items_ok, H.
  - apply can_scan_nonempty. apply Forall_map.
    eapply List.Forall_impl; [|exact H].
    intros sf (_ & _ & _ & Hne). exact Hne.
  - rewrite length_map. exact Hfuel.
Qed.

Lemma top_items_ok fuel (fields : list field) :
  Forall well_formed fields ->
  Forall (fun f => match F.value f with
                   | Arr subFields => (List.length subFields < fuel)%nat
                   | Str _ => True
                   end) fields ->
  Forall2 (item_ok (decodeFields (S fuel)))
    (map (fun f => (F.id f, wire_value f)) fields)
    (map flat fields).
Proof.
  induction 1 as [|f l (Hid & _ & Hlen & Hv) _ IH]; intros Hfuel;
    [constructor|].
  inversion Hfuel as [|? ? Hf Hfuel']; subst.
  cbn [map]. constructor; [|apply IH, Hfuel'].
  split; [exact Hid|]. split; [exact Hlen|].
  cbn [fst snd]. unfold scanned, flat, wire_value in *.
  destruct (F.value f) as [v|subFields].
  - rewrite Hv. reflexivity.
  - destruct Hv as [Hinc Hsubs]. rewrite Hinc.
    rewrite decode_subfields by assumption. reflexivity.
Qed.

Lemma list_max_ge (l : list nat) (x : nat) : In x l -> (x <= list_max l)%nat.
Proof.
  intros H.
  pose proof (proj1 (list_max_le l (list_max l)) (le_n _)) as Hall.
  rewrite List.Forall_forall in Hall. apply Hall, H.
Qed.

Lemma enough_fuel_subfields (fields : list field) (fuel : nat) :
  (enough_fuel fields <= S (S fuel))%nat ->
  Forall (fun f => match F.value f with
                   | Arr subFields => (List.length subFields < fuel)%nat
                   | Str _ => True
                   end) fields.
Proof.
  unfold enough_fuel. intros H. apply Forall_forall. intros f Hin.
  destruct (F.value f) as [v|subFields] eqn:Hv; [exact I|].
  assert (Hm : (List.length subFields
                <= list_max (map (fun f => match F.value f with
                                           | Arr subFields =>
                                               List.length subFields
                                           | Str _ => 0%nat
                                           end) fields))%nat).
  { apply list_max_ge. apply in_map_iff. exists f.
    rewrite Hv. split; [reflexivity|]. apply list_elem_of_In, Hin. }
  lia.
Qed.

Lemma decodeFields_document (fields : list field) (crc : string) (fuel : nat) :
  Forall well_formed fields ->
  String.length crc = 4%nat ->
  (enough_fuel fields <= fuel)%nat ->
  decodeFields fuel
    ((wire (map (fun f => (F.id f, wire_value f)) fields) +:+ "6304") +:+ crc)
  = Some (map flat fields ++ [Field "63" None "04" (Str crc)]).
Proof.
  intros Hwf Hcrc Hfuel.
  destruct fuel as [|[|fuel]]; [unfold enough_fuel in Hfuel; lia..|].
  set (items := map (fun f => (F.id f, wire_value f)) fields).
  rewrite decodeFields_S, sapp_assoc.
  pose proof (top_items_ok fuel fields Hwf
                (enough_fuel_subfields _ _ Hfuel)) as Hok.
  fold items in Hok.
  assert (Hlen : List.length items = List.length fields)
    by (unfold items; apply length_map).
  pose proof (scan_items _ _ _ Hok (S fuel - List.length items) ""
                ("6304" +:+ crc) []
                (can_scan_rest _ _
                   (app_nonempty_l "6304" crc ltac:(discriminate)))) as Hs.
  rewrite sapp_nil_l in Hs.
  replace (List.length items + (S fuel - List.length items))%nat
    with (S fuel) in Hs by (unfold enough_fuel in Hfuel; lia).
  change (JS.len "") with 0 in Hs. rewrite Z.add_0_l in Hs.
  cbn [List.app] in Hs. rewrite Hs.
  replace (S fuel - List.length items)%nat
    with (2 + (fuel - List.length items - 1))%nat
    by (unfold enough_fuel in Hfuel; lia).
  rewrite scan_crc_tuple by assumption.
  replace (JS.lt _ _) with false; [reflexivity|].
  symmetry. cbn [JS.lt]. apply Z.ltb_ge. lia.
Qed.

(** *** the labels *)

Lemma flat_undescribed (f : field) : undescribed (flat f).
Proof.
  unfold undescribed, flat. cbn [F.description F.value].
  split; [reflexivity|]. destruct (F.value f); [exact I|].
  apply Forall_map. apply Forall_forall. intros sf _. reflexivity.
Qed.

Lemma describe_crc (crc : string) :
  describe (Field "63" None "04" (Str crc)) = crc63 crc.
Proof.
  rewrite describe_labelled by (split; [reflexivity|exact I]).
  reflexivity.
Qed.

Lemma same_content_flat (f : field) : same_content f (labelled (flat f)).
Proof.
  constructor; [reflexivity|].
  destruct f as [i d l v]. unfold labelled, flat.
  cbn [F.id F.value F.length].
  destruct v as [s|subFields]; [constructor|].
  constructor. rewrite map_map.
  induction subFields as [|sf subFields IH]; [constructor|].
  cbn [map]. constructor; [|exact IH].
  constructor; [reflexivity|].
  destruct sf as [i' d' l' v']. unfold flat_sub, sub_value.
  cbn [F.id F.value F.length].
  destruct v'; constructor.
Qed.

(** *** well-formed documents make the round trip *)

Lemma well_formed_round_trips (fields : list field) :
  Forall well_formed fields -> round_trips fields.
Proof.
  intros Hwf.
  set (body := wire (top_items fields) +:+ "6304").
  exists (body +:+ calculateCRC16 body), (map labelled (map flat fields)).
  pose proof (calculateCRC16_length body) as Hcrc.
  split; [apply encode_wire|]. split.
  - exists (enough_fuel fields). intros fuel Hfuel.
    rewrite slice_back by assumption.
    assert (Hd : decodeFields fuel (body +:+ calculateCRC16 body)
                 = Some (map flat fields
                         ++ [Field "63" None "04"
                               (Str (calculateCRC16 body))])).
    { unfold body. rewrite top_items_all by assumption.
      apply decodeFields_document; try assumption.
      unfold body in Hcrc. rewrite top_items_all in Hcrc by assumption.
      exact Hcrc. }
    assert (Hne : body +:+ calculateCRC16 body <> "").
    { apply app_nonempty_l. unfold body. apply app_nonempty_r.
      discriminate. }
    assert (Hok : providedCRC (body +:+ calculateCRC16 body)
                  = computedCRC (body +:+ calculateCRC16 body)).
    { unfold providedCRC, computedCRC.
      rewrite slice_back, slice_front by assumption. reflexivity. }
    rewrite (decode_accepts _ _ _ Hne Hok Hd).
    rewrite map_app. cbn [map]. rewrite describe_crc.
    do 4 f_equal. apply map_ext_Forall. apply Forall_map.
    apply Forall_forall. intros f _. apply describe_labelled.
    apply flat_undescribed.
  - rewrite map_map. clear. induction fields as [|f l IH]; [constructor|].
    cbn [map]. constructor; [apply same_content_flat|exact IH].
Qed.

End RoundTrip.

(** ** The documents of createPayment make the round trip *)

Section PaymentRoundTrip.
Import JS PixCodec.

Ltac forall_cons := repeat (apply List.Forall_cons || apply List.Forall_nil).

Lemma scalar_well_formed i d l v :
  String.length i = 2%nat -> i <> "63" -> includes ["26"; "62"] i = false ->
  fits (Field i d l (Str v)) -> well_formed (Field i d l (Str v)).
Proof.
  intros Hi H63 Hinc [Hlen _]. unfold well_formed. cbn [F.id F.value].
  auto.
Qed.

Lemma composite_well_formed i d l subFields :
  String.length i = 2%nat -> i <> "63" -> includes ["26"; "62"] i = true ->
  Forall scalar_sub subFields ->
  fits (Field i d l (Arr subFields)) ->
  well_formed (Field i d l (Arr subFields)).
Proof.
  intros Hi H63 Hinc Hsubs [Hlen _]. unfold well_formed.
  cbn [F.id F.value]. auto.
Qed.

Lemma scalar_sub_intro i d l v :
  String.length i = 2%nat -> includes ["26"; "62"] i = false ->
  JS.len v <= 99 -> v <> "" -> scalar_sub (Field i d l (Str v)).
Proof. intros. unfold scalar_sub, sub_value. cbn [F.id F.value]. auto. Qed.

Lemma provided_default (o : option string) :
  provided o = true -> default "" o <> "".
Proof.
  destruct o as [s|]; [|discriminate]. cbn [provided default].
  apply truthy_true.
Qed.

Lemma head_well_formed (k : string) :
  truthy k = true ->
  Forall fits (head_fields k) -> Forall well_formed (head_fields k).
Proof.
  intros Tk H. unfold head_fields in *.
  apply List.Forall_cons_iff in H. destruct H as [H00 H].
  apply List.Forall_cons_iff in H. destruct H as [H26 H].
  apply List.Forall_cons_iff in H. destruct H as [H52 H].
  apply List.Forall_cons_iff in H. destruct H as [H53 _].
  forall_cons.
  - apply scalar_well_formed; [reflexivity|discriminate|reflexivity|exact H00].
  - apply composite_well_formed;
      [reflexivity|discriminate|reflexivity| |exact H26].
    destruct H26 as [_ Hsubs]. cbn [F.value] in Hsubs.
    apply List.Forall_cons_iff in Hsubs. destruct Hsubs as [_ Hsubs].
    apply List.Forall_cons_iff in Hsubs. destruct Hsubs as [Hk _].
    forall_cons.
    + apply scalar_sub_intro;
        [reflexivity|reflexivity|vm_compute; discriminate|discriminate].
    + apply scalar_sub_intro;
        [reflexivity|reflexivity|exact Hk|apply truthy_true, Tk].
  - apply scalar_well_formed; [reflexivity|discriminate|reflexivity|exact H52].
  - apply scalar_well_formed; [reflexivity|discriminate|reflexivity|exact H53].
Qed.

Lemma amount_well_formed (a : string) :
  Forall fits [amount_field a] -> Forall well_formed [amount_field a].
Proof.
  intros H. apply List.Forall_cons_iff in H. destruct H as [H54 _].
  forall_cons.
  apply scalar_well_formed; [reflexivity|discriminate|reflexivity|exact H54].
Qed.

Lemma tail_well_formed (n c : string) :
  Forall fits (tail_fields n c) -> Forall well_formed (tail_fields n c).
Proof.
  intros H. unfold tail_fields in *.
  apply List.Forall_cons_iff in H. destruct H as [H58 H].
  apply List.Forall_cons_iff in H. destruct H as [H59 H].
  apply List.Forall_cons_iff in H. destruct H as [H60 _].
  forall_cons;
    (apply scalar_well_formed;
     [reflexivity|discriminate|reflexivity|assumption]).
Qed.

Lemma template_scalar_sub :
  scalar_sub
    (Field "50" (Some "Payment system specific template") "variable"
       (Arr [ Field "00" (Some "GUI") "17" (Str "BR.GOV.BCB.BRCODE");
              Field "01" (Some "version") "05" (Str "1.0.0") ])).
Proof.
  unfold scalar_sub. cbn [F.id].
  split; [reflexivity|]. split; [reflexivity|].
  split; [vm_compute; discriminate|vm_compute; discriminate].
Qed.

Lemma additional_subfields_scalar (t d : option string) :
  Forall (fun sf => JS.len (sub_value sf) <= 99) (additional_subfields t d) ->
  Forall scalar_sub (additional_subfields t d).
Proof.
  unfold additional_subfields. intros H.
  apply Forall_app in H. destruct H as [Ht H].
  apply Forall_app in H. destruct H as [Hd _].
  apply Forall_app. split; [|apply Forall_app; split].
  - destruct (provided t) eqn:Pt; [|constructor].
    apply List.Forall_cons_iff in Ht. destruct Ht as [Ht _].
    forall_cons.
    apply scalar_sub_intro;
      [reflexivity|reflexivity|exact Ht|apply provided_default, Pt].
  - destruct (provided d) eqn:Pd; [|constructor].
    apply List.Forall_cons_iff in Hd. destruct Hd as [Hd _].
    forall_cons.
    apply scalar_sub_intro;
      [reflexivity|reflexivity|exact Hd|apply provided_default, Pd].
  - forall_cons. exact template_scalar_sub.
Qed.

Lemma additional_well_formed (t d : option string) :
  Forall fits (additional_fields t d) ->
  Forall well_formed (additional_fields t d).
Proof.
  unfold additional_fields.
  destruct (provided t || provided d); [|constructor].
  intros H. apply List.Forall_cons_iff in H. destruct H as [H62 _].
  forall_cons.
  apply composite_well_formed;
    [reflexivity|discriminate|reflexivity| |exact H62].
  apply additional_subfields_scalar. exact (proj2 H62).
Qed.

Lemma createPayment_well_formed (p : params) (fields : list field) :
  createPayment p = inr (pixData fields) ->
  Forall fits fields -> Forall well_formed fields.
Proof.
  intros Hc.
  destruct (createPayment_success _ _ Hc)
    as (k & n & c & Hk & Hn & Hcity & Tk & Tn & Tc).
  rewrite (createPayment_fields p k n c) in Hc by assumption.
  apply (inj inr), pixData_inj in Hc. subst fields.
  intros H.
  apply Forall_app in H. destruct H as [H1 H].
  apply Forall_app in H. destruct H as [H2 H].
  apply Forall_app in H. destruct H as [H3 H4].
  apply Forall_app. split; [apply head_well_formed; assumption|].
  apply Forall_app. split.
  { destruct (provided (amount p)); [|constructor].
    apply amount_well_formed, H2. }
  apply Forall_app. split; [apply tail_well_formed, H3|].
  apply additional_well_formed, H4.
Qed.




End PaymentRoundTrip.
